(** * QuantEcon.py, examples/oligopoly.py: the dominant-firm LQ problem

    A shallow embedding of [setup_matrices], [find_PFd] and
    [solve_for_opt_policy], together with the handful of numpy operations
    they use.  The Python code is written once, over an interface of scalar
    operations, and read at two instances:

    - exact rationals ([Qc]), the idealisation in which the algebraic
      statements (inverse, symmetry, closed forms) are proved;
    - IEEE binary64 ([PrimFloat.float]), the type numpy and Python really
      compute with, used where infinities and NaN matter.

    Python exceptions are values of [exn]; a call that raises returns
    [Raise e], and [bind] propagates it like an uncaught exception. *)

From Stdlib Require Import List Bool Arith ZArith QArith Qcanon Floats Lia.
Import ListNotations.

Set Implicit Arguments.
Open Scope nat_scope.

(** ** Exceptions and the error monad *)

Inductive exn : Type :=
| ZeroDivisionError   (* Python float [/] with a zero divisor *)
| LinAlgError         (* scipy.linalg.inv on a singular matrix *)
| ValueError          (* numpy: shapes not aligned / cannot broadcast *)
| IndexError          (* numpy: index out of bounds *)
| SolverError.        (* anything the external LQ solver raises *)

Inductive result (A : Type) : Type :=
| Ok (a : A)
| Raise (e : exn).

Arguments Ok {A} a.
Arguments Raise {A} e.

Definition bind {A B : Type} (m : result A) (k : A -> result B) : result B :=
  match m with
  | Ok a => k a
  | Raise e => Raise e
  end.

Declare Scope py_scope.
Delimit Scope py_scope with py.
Notation "x <- m ;; k" := (bind m (fun x => k))
  (at level 61, m at next level, right associativity) : py_scope.
Notation "' p <- m ;; k" := (bind m (fun x => match x with p => k end))
  (at level 61, p pattern, m at next level, right associativity) : py_scope.
Open Scope py_scope.

(** ** Scalars

    The operations a Python float / numpy float64 offers to this program.
    [s_div] is the raw quotient; who raises on a zero divisor and who does
    not is decided by the caller ([py_truediv] against [np_pow_m1]). *)

Class Scalar (T : Type) : Type := {
  s_zero : T;
  s_one : T;
  s_add : T -> T -> T;
  s_sub : T -> T -> T;
  s_mul : T -> T -> T;
  s_div : T -> T -> T;
  s_opp : T -> T;
  s_is_zero : T -> bool
}.

(** ** Module-level names

    [a0 = 100.] ... [beta = .95] are assigned at module level (lines
    162-171).  Neither [setup_matrices] nor [solve_for_opt_policy] assigns
    any of these names, so inside both functions they resolve to the module
    globals; the record below is the part of the module namespace the two
    functions read. *)

Module Globals.
Record t (T : Type) : Type := Make {
  a0 : T; a1 : T; rho : T; c_eps : T; c : T;
  d : T; e : T; g : T; h : T; beta : T
}.
End Globals.

(** ** numpy arrays

    A 1-d array is the list of its entries, a 2-d array the list of its
    rows. *)

Definition vec (T : Type) : Type := list T.
Definition mat (T : Type) : Type := list (list T).

Section Numpy.

Context {T : Type} `{Scalar T}.

Definition two : T := s_add s_one s_one.

(** Python [x / y] on floats: raises on a zero divisor. *)
Definition py_truediv (x y : T) : result T :=
  if s_is_zero y then Raise ZeroDivisionError else Ok (s_div x y).

(** [x ** (-1)] on a numpy float64 scalar: never raises (a zero base gives
    a RuntimeWarning and an infinity). *)
Definition np_pow_m1 (x : T) : T := s_div s_one x.

(** *** Shapes *)

Definition ncols (m : mat T) : nat :=
  match m with [] => 0 | r :: _ => length r end.

Definition has_shape (r k : nat) (m : mat T) : Prop :=
  length m = r /\ Forall (fun row => length row = k) m.

(** *** Constructors *)

(** [np.eye(n, m)]: ones on the main diagonal. *)
Definition np_eye (n m : nat) : mat T :=
  map (fun i => map (fun j => if Nat.eqb i j then s_one else s_zero) (seq 0 m))
      (seq 0 n).

(** [np.empty((n, m))].  numpy leaves the contents unspecified; the filler
    chosen here is overwritten before it is read. *)
Definition np_empty (n m : nat) : mat T := repeat (repeat s_zero m) n.

(** *** Element-wise operations *)

Definition vneg (v : vec T) : vec T := map s_opp v.
Definition vscale (k : T) (v : vec T) : vec T := map (s_mul k) v.
Definition mneg (m : mat T) : mat T := map vneg m.

Fixpoint vsub (u v : vec T) : result (vec T) :=
  match u, v with
  | [], [] => Ok []
  | x :: u', y :: v' => r <- vsub u' v' ;; Ok (s_sub x y :: r)
  | _, _ => Raise ValueError
  end.

Fixpoint msub (a b : mat T) : result (mat T) :=
  match a, b with
  | [], [] => Ok []
  | r :: a', s :: b' => x <- vsub r s ;; y <- msub a' b' ;; Ok (x :: y)
  | _, _ => Raise ValueError
  end.

(** *** Products *)

Definition dotprod (u v : vec T) : T :=
  fold_left (fun acc xy => s_add acc (s_mul (fst xy) (snd xy))) (combine u v) s_zero.

(** [np.dot] of two 1-d arrays. *)
Definition vdot (u v : vec T) : result T :=
  if Nat.eqb (length u) (length v) then Ok (dotprod u v) else Raise ValueError.

Definition col (j : nat) (m : mat T) : vec T := map (fun r => nth j r s_zero) m.
Definition transpose (m : mat T) : mat T := map (fun j => col j m) (seq 0 (ncols m)).

(** [np.dot] of two 2-d arrays: the rows of [a] must be as long as [b] has
    rows. *)
Definition np_dot (a b : mat T) : result (mat T) :=
  if forallb (fun r => Nat.eqb (length r) (length b)) a
  then Ok (map (fun r => map (dotprod r) (transpose b)) a)
  else Raise ValueError.

(** *** Indexing and slice assignment *)

(** [m[-1, :]] *)
Definition last_row (m : mat T) : result (vec T) :=
  match rev m with [] => Raise IndexError | r :: _ => Ok r end.

(** [m[-1, -1]] *)
Definition last_last (m : mat T) : result T :=
  r <- last_row m ;;
  match rev r with [] => Raise IndexError | x :: _ => Ok x end.

(** [m[-1, :-1]] *)
Definition last_butlast (m : mat T) : result (vec T) :=
  r <- last_row m ;; Ok (removelast r).

(** [m[0, :-1]] *)
Definition first_butlast (m : mat T) : result (vec T) :=
  match m with [] => Raise IndexError | r :: _ => Ok (removelast r) end.

(** What numpy stores into a row of length [k] when [v] is assigned to it:
    [v] itself, or its single element repeated. *)
Definition broadcast_row (k : nat) (v : vec T) : result (vec T) :=
  if Nat.eqb (length v) k then Ok v
  else match v with
       | [x] => Ok (repeat x k)
       | _ => Raise ValueError
       end.

Fixpoint set_nth {A : Type} (i : nat) (x : A) (l : list A) : result (list A) :=
  match i, l with
  | _, [] => Raise IndexError
  | 0, _ :: l' => Ok (x :: l')
  | S i', y :: l' => r <- set_nth i' x l' ;; Ok (y :: r)
  end.

(** [m[i, :] = v] *)
Definition set_row (i : nat) (v : vec T) (m : mat T) : result (mat T) :=
  match nth_error m i with
  | None => Raise IndexError
  | Some old => r <- broadcast_row (length old) v ;; set_nth i r m
  end.

(** [m[i, j] = x] *)
Definition set_entry (i j : nat) (x : T) (m : mat T) : result (mat T) :=
  match nth_error m i with
  | None => Raise IndexError
  | Some old => r <- set_nth j x old ;; set_nth i r m
  end.

(** [m[-1, :] = v] *)
Definition set_last_row (v : vec T) (m : mat T) : result (mat T) :=
  match m with
  | [] => Raise IndexError
  | _ => set_row (length m - 1) v m
  end.

(** [m[:-1, :] = u], for [u] of the shape of the slice. *)
Definition set_rows_butlast (u : mat T) (m : mat T) : result (mat T) :=
  match rev m with
  | [] => if Nat.eqb (length u) 0 then Ok [] else Raise ValueError
  | r :: _ =>
      if Nat.eqb (length u) (length m - 1)
         && forallb (fun x => Nat.eqb (length x) (length r)) u
      then Ok (u ++ [r])
      else Raise ValueError
  end.

(** [np.hstack([v, x])] for a 1-d [v] and a scalar [x]. *)
Definition np_hstack (v : vec T) (x : T) : vec T := v ++ [x].

(** [np.vstack([m, v])] for a 2-d [m] and a 1-d [v]. *)
Definition np_vstack (m : mat T) (v : vec T) : result (mat T) :=
  if forallb (fun r => Nat.eqb (length r) (length v)) m
  then Ok (m ++ [v]) else Raise ValueError.

End Numpy.

(** ** [scipy.linalg.inv]

    The LAPACK routine behind [la.inv] is not part of the repository.  It is
    modelled by what it computes: the inverse of a square matrix, or a
    [LinAlgError] ("singular matrix") when there is none.  The inverse is
    written with cofactors (Laplace expansion along the first row); in exact
    arithmetic every inversion algorithm returns this same matrix (lemma
    [la_inv_sound] below).  In binary64 the entries LAPACK returns may differ
    from these in the last bits; no statement below depends on the bits of
    [A] or [B] in binary64, only on their shapes. *)

Section Inverse.

Context {T : Type} `{Scalar T}.

Definition drop_nth {A : Type} (j : nat) (l : list A) : list A :=
  firstn j l ++ skipn (S j) l.

Definition minor (i j : nat) (m : mat T) : mat T :=
  map (drop_nth j) (drop_nth i m).

Definition signed (k : nat) (x : T) : T :=
  if Nat.even k then x else s_opp x.

Fixpoint det (n : nat) (m : mat T) : T :=
  match n, m with
  | 0, _ => s_one
  | S _, [] => s_zero
  | S n', r :: rest =>
      fold_left s_add
        (map (fun j => signed j (s_mul (nth j r s_zero)
                                       (det n' (map (drop_nth j) rest))))
             (seq 0 n))
        s_zero
  end.

Definition cofactor (n i j : nat) (m : mat T) : T :=
  signed (i + j) (det (n - 1) (minor i j m)).

Definition adjugate (n : nat) (m : mat T) : mat T :=
  map (fun i => map (fun j => cofactor n j i m) (seq 0 n)) (seq 0 n).

Definition la_inv (m : mat T) : result (mat T) :=
  let n := length m in
  if negb (forallb (fun r => Nat.eqb (length r) n) m)
  then Raise ValueError                     (* "expected square matrix" *)
  else
    let dt := det n m in
    if s_is_zero dt then Raise LinAlgError  (* "singular matrix" *)
    else Ok (map (map (fun x => s_div x dt)) (adjugate n m)).

End Inverse.

(** ** The program *)

Section Oligopoly.

Context {T : Type} `{Scalar T}.

(** The external LQ solver: [LQ(Q, R, A, B, beta=beta).stationary_values()]
    as one call, arguments in the order of the [LQ] constructor.  It returns
    [(P, F, d)] or raises. *)
Definition lq_solver : Type :=
  mat T -> mat T -> mat T -> mat T -> T -> result (mat T * mat T * T).

(** [setup_matrices(params)], lines 35-75.  The body reads [a0], [d], [a1],
    [h], [c], [rho], [beta], [e], [g]: module globals, not [params]. *)
Definition setup_matrices (G : Globals.t T) (params : vec T)
  : result (mat T * mat T * mat T * mat T) :=
  let a0 := Globals.a0 G in
  let a1 := Globals.a1 G in
  let rho := Globals.rho G in
  let c := Globals.c G in
  let d := Globals.d G in
  let e := Globals.e G in
  let g := Globals.g G in
  let h := Globals.h G in
  let beta := Globals.beta G in
  (* Left hand side of (37) *)
  let Alhs := np_eye 5 5 in
  Alhs <- set_row 4 [s_sub a0 d; s_one; s_opp a1; s_sub (s_opp a1) h; c] Alhs ;;
  Alhsinv <- la_inv Alhs ;;
  (* Right hand side of (37) *)
  let Brhs := transpose [[s_zero; s_zero; s_one; s_zero; s_zero]] in
  let Arhs := np_eye 5 5 in
  Arhs <- set_entry 1 1 rho Arhs ;;
  Arhs <- set_entry 3 4 s_one Arhs ;;
  c_beta <- py_truediv c beta ;;
  Arhs <- set_entry 4 4 c_beta Arhs ;;
  (* R from equation (40) *)
  let half := s_div s_one two in
  let R :=
    [ [s_zero; s_zero; s_div (s_sub a0 e) two; s_zero; s_zero];
      [s_zero; s_zero; s_div s_one two; s_zero; s_zero];
      [s_div (s_sub a0 e) two; s_div s_one two;
         s_sub (s_opp a1) (s_mul half g); s_div (s_opp a1) two; s_zero];
      [s_zero; s_zero; s_div (s_opp a1) two; s_zero; s_zero];
      [s_zero; s_zero; s_zero; s_zero; s_zero] ] in
  let Q := [[s_div c two]] in
  A <- np_dot Alhsinv Arhs ;;
  B <- np_dot Alhsinv Brhs ;;
  Ok (A, B, Q, R).

(** [find_PFd(A, B, Q, R, beta)], lines 78-100. *)
Definition find_PFd (stationary_values : lq_solver)
           (A B Q R : mat T) (beta : T) : result (mat T * mat T * T) :=
  '(P, F, d) <- stationary_values Q (mneg R) A B beta ;;
  Ok (P, F, d).

(** The local variables of steps 3 and 4 of [solve_for_opt_policy]. *)
Record policy_frame : Type := Frame {
  fr_P22 : T;
  fr_P21 : vec T;
  fr_P22inv : T;
  fr_dotmat : mat T;
  fr_coeffs : mat T;
  fr_z0 : vec T;
  fr_x0 : T;
  fr_D0 : vec T
}.

(** Lines 122-137. *)
Definition policy_steps (P F : mat T) (eta0 Q0 q0 : T) : result policy_frame :=
  (* Step 3: Convert implementation into state variables (Find coeffs) *)
  P22 <- last_last P ;;
  P21 <- last_butlast P ;;
  let P22inv := np_pow_m1 P22 in
  let dotmat := np_empty 5 5 in
  let upper := np_eye 4 5 in
  let lower := np_hstack (vscale (s_opp P22inv) P21) P22inv in
  dotmat <- set_rows_butlast upper dotmat ;;
  dotmat <- set_last_row lower dotmat ;;
  coeffs <- np_dot (mneg F) dotmat ;;
  (* Step 4: Find optimal x_0 and mu_{x, 0} *)
  let z0 := [s_one; eta0; Q0; q0] in
  P21z0 <- vdot P21 z0 ;;
  let x0 := s_mul (s_opp P22inv) P21z0 in
  let D0 := vneg (vscale P22inv P21) in
  Ok (Frame P22 P21 P22inv dotmat coeffs z0 x0 D0).

(** Lines 143-156, the rearranging after the TODO comment.  Its results
    ([coeff_utm1], [coeff_zt], [coeff_ztm1]) are bound to locals that
    nothing reads. *)
Definition rearranging (P F A B dotmat coeffs : mat T) : result (T * vec T * vec T) :=
  Plast <- last_row P ;;
  part1 <- np_vstack (np_eye 4 5) Plast ;;
  BF <- np_dot B F ;;
  part2 <- msub A BF ;;
  let part3 := dotmat in
  m0 <- np_dot part1 part2 ;;
  m <- np_dot m0 part3 ;;
  m12 <- last_butlast m ;;
  m22 <- last_last m ;;
  f <- np_dot (mneg F) dotmat ;;
  f11 <- last_butlast f ;;
  f12 <- last_last f ;;
  let coeff_utm1 := s_mul (s_mul f12 m22) (np_pow_m1 f12) in
  coeff_zt <- first_butlast coeffs ;;
  t <- vsub m12 (vscale (s_mul (np_pow_m1 f12) m22) f11) ;;
  let coeff_ztm1 := vscale f12 t in
  Ok (coeff_utm1, coeff_zt, coeff_ztm1).

(** [solve_for_opt_policy(params, eta0, Q0, q0)], lines 103-158.  [beta] in
    the call of [find_PFd] is again the module global. *)
Definition solve_for_opt_policy (G : Globals.t T) (stationary_values : lq_solver)
           (params : vec T) (eta0 Q0 q0 : T) : result (mat T * mat T * vec T) :=
  (* Step 1/2: Formulate/Solve the optimal linear regulator *)
  '(A, B, Q, R) <- setup_matrices G params ;;
  '(P, F, d) <- find_PFd stationary_values A B Q R (Globals.beta G) ;;
  fr <- policy_steps P F eta0 Q0 q0 ;;
  _ <- rearranging P F A B (fr_dotmat fr) (fr_coeffs fr) ;;
  Ok (P, F, fr_D0 fr).

(** The same function with lines 139-156 deleted. *)
Definition solve_for_opt_policy_without_rearranging
           (G : Globals.t T) (stationary_values : lq_solver)
           (params : vec T) (eta0 Q0 q0 : T) : result (mat T * mat T * vec T) :=
  '(A, B, Q, R) <- setup_matrices G params ;;
  '(P, F, d) <- find_PFd stationary_values A B Q R (Globals.beta G) ;;
  fr <- policy_steps P F eta0 Q0 q0 ;;
  Ok (P, F, fr_D0 fr).

End Oligopoly.

(** ** The two readings of the scalars

    Exact rationals have no infinity: [x / 0] is [0] in [Qc].  Statements in
    exact arithmetic are therefore made for nonzero divisors only; what the
    program does with a zero divisor is settled in binary64, where
    [PrimFloat.div] is the IEEE quotient.  In binary64 [x ** (-1)] is taken
    to be the correctly rounded [1 / x], which is what C's [pow] returns on
    zeros, infinities and NaN. *)

#[export] Instance Scalar_Qc : Scalar Qc := {|
  s_zero := 0%Qc;
  s_one := 1%Qc;
  s_add := Qcplus;
  s_sub := Qcminus;
  s_mul := Qcmult;
  s_div := Qcdiv;
  s_opp := Qcopp;
  s_is_zero := fun x => Qc_eq_bool x 0%Qc
|}.

#[export] Instance Scalar_float : Scalar float := {|
  s_zero := 0%float;
  s_one := 1%float;
  s_add := PrimFloat.add;
  s_sub := PrimFloat.sub;
  s_mul := PrimFloat.mul;
  s_div := PrimFloat.div;
  s_opp := PrimFloat.opp;
  s_is_zero := fun x => PrimFloat.eqb x 0%float
|}.

(** Line 172: [params = np.array([a0, a1, rho, c_eps, c, d, e, g, h, beta])]. *)
Definition params_of {T : Type} (G : Globals.t T) : vec T :=
  [Globals.a0 G; Globals.a1 G; Globals.rho G; Globals.c_eps G; Globals.c G;
   Globals.d G; Globals.e G; Globals.g G; Globals.h G; Globals.beta G].

Definition qc (n : Z) (d : positive) : Qc := Q2Qc (n # d).

(** Lines 162-171, in both readings. *)
Definition script_globals_Qc : Globals.t Qc :=
  Globals.Make (qc 100 1) (qc 1 1) (qc 8 10) (qc 2 10) (qc 1 1)
               (qc 20 1) (qc 20 1) (qc 2 10) (qc 2 10) (qc 95 100).

#[local] Set Warnings "-inexact-float".
Definition script_globals : Globals.t float :=
  Globals.Make 100%float 1%float 0.8%float 0.2%float 1%float
               20%float 20%float 0.2%float 0.2%float 0.95%float.

(** The script's [params] array, in both readings. *)
Definition script_params_Qc : vec Qc := params_of script_globals_Qc.

Definition script_params : vec float := params_of script_globals.

(** ** Names for the intermediate matrices of [setup_matrices] *)

Section Matrices.

Context {T : Type} `{Scalar T}.

(** [Alhs] after line 54. *)
Definition Alhs_of (G : Globals.t T) : mat T :=
  [ [s_one; s_zero; s_zero; s_zero; s_zero];
    [s_zero; s_one; s_zero; s_zero; s_zero];
    [s_zero; s_zero; s_one; s_zero; s_zero];
    [s_zero; s_zero; s_zero; s_one; s_zero];
    [s_sub (Globals.a0 G) (Globals.d G); s_one; s_opp (Globals.a1 G);
     s_sub (s_opp (Globals.a1 G)) (Globals.h G); Globals.c G] ].

(** [Arhs] after line 62. *)
Definition Arhs_of (G : Globals.t T) : mat T :=
  [ [s_one; s_zero; s_zero; s_zero; s_zero];
    [s_zero; Globals.rho G; s_zero; s_zero; s_zero];
    [s_zero; s_zero; s_one; s_zero; s_zero];
    [s_zero; s_zero; s_zero; s_one; s_one];
    [s_zero; s_zero; s_zero; s_zero; s_div (Globals.c G) (Globals.beta G)] ].

(** [Brhs], line 58. *)
Definition Brhs : mat T := [[s_zero]; [s_zero]; [s_one]; [s_zero]; [s_zero]].

(** [R], lines 65-69, and [Q], line 70. *)
Definition R_of (G : Globals.t T) : mat T :=
  let a0 := Globals.a0 G in
  let a1 := Globals.a1 G in
  let e := Globals.e G in
  let g := Globals.g G in
  [ [s_zero; s_zero; s_div (s_sub a0 e) two; s_zero; s_zero];
    [s_zero; s_zero; s_div s_one two; s_zero; s_zero];
    [s_div (s_sub a0 e) two; s_div s_one two;
       s_sub (s_opp a1) (s_mul (s_div s_one two) g); s_div (s_opp a1) two; s_zero];
    [s_zero; s_zero; s_div (s_opp a1) two; s_zero; s_zero];
    [s_zero; s_zero; s_zero; s_zero; s_zero] ].

Definition Q_of (G : Globals.t T) : mat T := [[s_div (Globals.c G) two]].

(** Entry [(i, j)] of a 2-d array ([s_zero] out of range; only used in
    range). *)
Definition entry (m : mat T) (i j : nat) : T := nth j (nth i m []) s_zero.

(** The number of rows of a 2-d array holding an entry that is not zero. *)
Definition nonzero_rows (m : mat T) : nat :=
  length (filter (fun r => existsb (fun x => negb (s_is_zero x)) r) m).

(** The row [lower] of line 128 and the matrix [dotmat] of lines 126-130. *)
Definition lower_of (P21 : vec T) (P22inv : T) : vec T :=
  np_hstack (vscale (s_opp P22inv) P21) P22inv.

Definition dotmat_of (P21 : vec T) (P22inv : T) : mat T :=
  np_eye 4 5 ++ [lower_of P21 P22inv].

(** [m * k] and [m / k], entry by entry. *)
Definition mscale (m : mat T) (k : T) : mat T :=
  map (map (fun x => s_mul x k)) m.

Definition mdiv (m : mat T) (k : T) : mat T :=
  map (map (fun x => s_div x k)) m.

End Matrices.

(** The closed forms of [Alhs^-1], [A] and [B] in exact arithmetic. *)

Definition Alhsinv_of (G : Globals.t Qc) : mat Qc :=
  let c := Globals.c G in
  [ [1; 0; 0; 0; 0];
    [0; 1; 0; 0; 0];
    [0; 0; 1; 0; 0];
    [0; 0; 0; 1; 0];
    [ - (Globals.a0 G - Globals.d G) / c; - (1) / c; Globals.a1 G / c;
      (Globals.a1 G + Globals.h G) / c; 1 / c ] ]%Qc.

Definition A_of (G : Globals.t Qc) : mat Qc :=
  let c := Globals.c G in
  [ [1; 0; 0; 0; 0];
    [0; Globals.rho G; 0; 0; 0];
    [0; 0; 1; 0; 0];
    [0; 0; 0; 1; 1];
    [ - (Globals.a0 G - Globals.d G) / c; - Globals.rho G / c; Globals.a1 G / c;
      (Globals.a1 G + Globals.h G) / c;
      (Globals.a1 G + Globals.h G) / c + 1 / Globals.beta G ] ]%Qc.

Definition B_of (G : Globals.t Qc) : mat Qc :=
  [ [0]; [0]; [1]; [0]; [Globals.a1 G / Globals.c G] ]%Qc.

(** ** IEEE special values *)

(** [x] is an infinity or NaN. *)
Definition non_finite (x : float) : bool :=
  match Prim2SF x with
  | S754_infinity _ | S754_nan => true
  | _ => false
  end.

(** A stand-in for the external solver that ignores its arguments. *)
Definition const_solver {T : Type} (P F : mat T) (d : T)
  : mat T -> mat T -> mat T -> mat T -> T -> result (mat T * mat T * T) :=
  fun _ _ _ _ _ => Ok (P, F, d).

(** A solver that returns what it was called with: the rows of its four
    matrix arguments in order, and [beta]. *)
Definition echo_solver {T : Type}
  : mat T -> mat T -> mat T -> mat T -> T -> result (mat T * mat T * T) :=
  fun Q R A B beta => Ok (Q ++ R ++ A ++ B, [], beta).

(** A value-function matrix with a zero bottom-right entry, and a gain. *)
Definition P_zero_corner : mat float :=
  [ [1; 0; 0; 0; 1]; [0; 1; 0; 0; 0]; [0; 0; 1; 0; -2]; [0; 0; 0; 1; 3];
    [1; 0; -2; 3; 0] ]%float.

Definition F_sample : mat float := [ [1; 2; 3; 4; 5] ]%float.

(** The script's values with [beta = 0.], and with [c = 0.]. *)
Definition beta_zero_globals : Globals.t Qc :=
  Globals.Make (qc 100 1) (qc 1 1) (qc 8 10) (qc 2 10) (qc 1 1)
               (qc 20 1) (qc 20 1) (qc 2 10) (qc 2 10) (qc 0 1).

Definition c_zero_globals : Globals.t Qc :=
  Globals.Make (qc 100 1) (qc 1 1) (qc 8 10) (qc 2 10) (qc 0 1)
               (qc 20 1) (qc 20 1) (qc 2 10) (qc 2 10) (qc 95 100).

(** A value-function matrix with bottom-right entry 4. *)
Definition P_sample : mat float :=
  [ [1; 0; 0; 0; 1]; [0; 1; 0; 0; 0]; [0; 0; 1; 0; -2]; [0; 0; 0; 1; 3];
    [1; 0; -2; 3; 4] ]%float.

(** What [setup_matrices] returns on the script's values, in binary64. *)
Definition script_matrices : mat float * mat float * mat float * mat float :=
  Eval vm_compute in
    match setup_matrices script_globals script_params with
    | Ok x => x
    | Raise _ => ([], [], [], [])
    end.

Definition script_A : mat float := fst (fst (fst script_matrices)).
Definition script_B : mat float := snd (fst (fst script_matrices)).
Definition script_Q : mat float := snd (fst script_matrices).
Definition script_R : mat float := snd script_matrices.

(** A call whose argument differs from the module-level values (a0 = 50),
    and a module whose [a0] was rebound to 50. *)
Definition other_params : vec float :=
  [50%float; 1%float; 0.8%float; 0.2%float; 1%float;
   20%float; 20%float; 0.2%float; 0.2%float; 0.95%float].

Definition rebound_globals : Globals.t float :=
  Globals.Make 50%float 1%float 0.8%float 0.2%float 1%float
               20%float 20%float 0.2%float 0.2%float 0.95%float.

(** A 5x5 [P] with bottom-right entry 4 and a 1x5 [F], in exact arithmetic. *)
Definition P_top_Qc : mat Qc :=
  [ [qc 1 1; qc 0 1; qc 0 1; qc 0 1; qc 1 1];
    [qc 0 1; qc 1 1; qc 0 1; qc 0 1; qc 0 1];
    [qc 0 1; qc 0 1; qc 1 1; qc 0 1; qc (-2) 1];
    [qc 0 1; qc 0 1; qc 0 1; qc 1 1; qc 3 1] ].

Definition P_sample_Qc : mat Qc :=
  P_top_Qc ++ [[qc 1 1; qc 0 1; qc (-2) 1; qc 3 1; qc 4 1]].

Definition F_sample_Qc : mat Qc := [[qc 1 1; qc 2 1; qc 3 1; qc 4 1; qc 5 1]].

(** ** Values for the further properties *)

(** The module with [c_eps] rebound. *)
Definition with_c_eps {T : Type} (x : T) (G : Globals.t T) : Globals.t T :=
  Globals.Make (Globals.a0 G) (Globals.a1 G) (Globals.rho G) x (Globals.c G)
               (Globals.d G) (Globals.e G) (Globals.g G) (Globals.h G)
               (Globals.beta G).

(** What lines 122-137 leave in the locals for a last row [r] of [P]. *)
Definition frame_of {T : Type} `{Scalar T} (r : vec T) (F : mat T) (eta0 Q0 q0 : T)
  : policy_frame :=
  let P22 := nth 4 r s_zero in
  let P21 := removelast r in
  let P22inv := np_pow_m1 P22 in
  let z0 := [s_one; eta0; Q0; q0] in
  Frame P22 P21 P22inv (dotmat_of P21 P22inv)
        (map (fun f => map (dotprod f) (transpose (dotmat_of P21 P22inv))) (mneg F))
        z0 (s_mul (s_opp P22inv) (dotprod P21 z0)) (vneg (vscale P22inv P21)).

(** A gain with two rows, which the solver of a one-control problem does
    not return. *)
Definition F_two_rows : mat float := [ [1; 2; 3; 4; 5]; [1; 2; 3; 4; 5] ]%float.

(** * Theorems *)

(** ** Shapes of the numpy operations *)

Section Shapes.

Context {T : Type} `{Scalar T}.

Lemma forallb_length_eq (k : nat) (a : list (list T)) :
  Forall (fun r => length r = k) a ->
  forallb (fun r => Nat.eqb (length r) k) a = true.
Proof.
  induction 1 as [|r a Hr _ IH]; simpl; [reflexivity|].
  rewrite IH, andb_true_r. now apply Nat.eqb_eq.
Qed.

Lemma forallb_length_inv (k : nat) (a : list (list T)) :
  forallb (fun r => Nat.eqb (length r) k) a = true ->
  Forall (fun r => length r = k) a.
Proof.
  induction a as [|r a IH]; simpl; intros E; constructor.
  - apply andb_true_iff in E. now apply Nat.eqb_eq.
  - apply IH. now apply andb_true_iff in E.
Qed.

Lemma transpose_length (k m : nat) (b : mat T) :
  has_shape (S k) m b -> length (transpose b) = m.
Proof.
  intros [Hl Hf]. unfold transpose. rewrite length_map, length_seq.
  destruct b as [|r b]; [discriminate|]. simpl. now inversion Hf.
Qed.

Lemma np_dot_shape (n k m : nat) (a b : mat T) :
  has_shape n (S k) a -> has_shape (S k) m b ->
  exists c, np_dot a b = Ok c /\ has_shape n m c.
Proof.
  intros [Hla Hfa] Hb. unfold np_dot.
  destruct Hb as [Hlb Hfb].
  rewrite forallb_length_eq by (now rewrite Hlb).
  eexists; split; [reflexivity|]. split.
  - now rewrite length_map.
  - apply Forall_map, Forall_forall. intros r _.
    rewrite length_map. eapply transpose_length. split; eassumption.
Qed.

Lemma np_dot_ok_inv (a b c : mat T) :
  np_dot a b = Ok c ->
  Forall (fun r => length r = length b) a /\
  c = map (fun r => map (dotprod r) (transpose b)) a.
Proof.
  unfold np_dot. destruct (forallb _ a) eqn:E; [|discriminate].
  intros [= <-]. split; [now apply forallb_length_inv|reflexivity].
Qed.

Lemma vsub_length (u v : vec T) :
  length u = length v -> exists w, vsub u v = Ok w /\ length w = length u.
Proof.
  revert v. induction u as [|x u IH]; intros [|y v] E; try discriminate.
  - now exists [].
  - injection E as E. destruct (IH v E) as (w & Hw & Hl).
    simpl. rewrite Hw. simpl. eexists; split; [reflexivity|]. simpl. now rewrite Hl.
Qed.

Lemma msub_shape (n m : nat) (a b : mat T) :
  has_shape n m a -> has_shape n m b ->
  exists c, msub a b = Ok c /\ has_shape n m c.
Proof.
  intros [Hla Hfa] [Hlb Hfb]. subst n. revert b Hlb Hfb.
  induction Hfa as [|r a Hr Hfa IH]; intros [|s b] Hlb Hfb; try discriminate.
  - exists []. repeat split. constructor.
  - inversion Hfb as [|? ? Hs Hfb']; subst. injection Hlb as Hlb.
    destruct (IH b Hlb Hfb') as (c & Hc & Hlc & Hfc).
    destruct (vsub_length r s) as (w & Hw & Hlw); [congruence|].
    simpl. rewrite Hw. simpl. rewrite Hc. simpl.
    eexists; split; [reflexivity|]. split; simpl; [now rewrite Hlc|].
    constructor; [congruence|assumption].
Qed.

Lemma last_row_app (a : mat T) (r : vec T) : last_row (a ++ [r]) = Ok r.
Proof. unfold last_row. now rewrite rev_app_distr. Qed.

Lemma last_row_shape (n k : nat) (m : mat T) :
  has_shape (S n) k m ->
  exists a r, m = a ++ [r] /\ length a = n /\ length r = k.
Proof.
  intros [Hl Hf]. destruct (exists_last (l := m)) as (a & r & ->).
  { intros ->. discriminate. }
  exists a, r. rewrite length_app in Hl. simpl in Hl.
  apply Forall_app in Hf as [_ Hf]. inversion Hf. repeat split; [lia | assumption].
Qed.

Lemma mneg_shape (n k : nat) (m : mat T) :
  has_shape n k m -> has_shape n k (mneg m).
Proof.
  intros [Hl Hf]. split; unfold mneg; [now rewrite length_map|].
  apply Forall_map. eapply Forall_impl; [|exact Hf].
  intros r Hr. unfold vneg. now rewrite length_map.
Qed.

Lemma np_eye_shape (n m : nat) : has_shape n m (np_eye n m).
Proof.
  unfold np_eye. split; [now rewrite length_map, length_seq|].
  apply Forall_map, Forall_forall. intros i _. now rewrite length_map, length_seq.
Qed.

Lemma length_5_inv {A : Type} (l : list A) :
  length l = 5 -> exists a b c d e, l = [a; b; c; d; e].
Proof.
  intros Hl.
  do 5 (destruct l as [|? l]; [discriminate Hl|]).
  destruct l; [|discriminate Hl].
  repeat eexists.
Qed.

Lemma has_shape_5_5_inv (m : mat T) :
  has_shape 5 5 m ->
  exists a00 a01 a02 a03 a04 a10 a11 a12 a13 a14 a20 a21 a22 a23 a24
         a30 a31 a32 a33 a34 a40 a41 a42 a43 a44,
    m = [ [a00; a01; a02; a03; a04]; [a10; a11; a12; a13; a14];
          [a20; a21; a22; a23; a24]; [a30; a31; a32; a33; a34];
          [a40; a41; a42; a43; a44] ].
Proof.
  intros [Hl Hf].
  destruct (length_5_inv m Hl) as (r0 & r1 & r2 & r3 & r4 & ->).
  inversion Hf as [|? ? H0 Hf1]; subst.
  inversion Hf1 as [|? ? H1 Hf2]; subst.
  inversion Hf2 as [|? ? H2 Hf3]; subst.
  inversion Hf3 as [|? ? H3 Hf4]; subst.
  inversion Hf4 as [|? ? H4 _]; subst.
  destruct (length_5_inv r0 H0) as (? & ? & ? & ? & ? & ->).
  destruct (length_5_inv r1 H1) as (? & ? & ? & ? & ? & ->).
  destruct (length_5_inv r2 H2) as (? & ? & ? & ? & ? & ->).
  destruct (length_5_inv r3 H3) as (? & ? & ? & ? & ? & ->).
  destruct (length_5_inv r4 H4) as (? & ? & ? & ? & ? & ->).
  repeat eexists.
Qed.


(** [np.empty] leaves the contents of [dotmat] unspecified; lines 129-130
    overwrite all of it, so any 5x5 start gives the same [dotmat]. *)
Lemma dotmat_overwrites_empty (junk : mat T) (lower : vec T) :
  has_shape 5 5 junk -> length lower = 5 ->
  (dotmat <- set_rows_butlast (np_eye 4 5) junk ;; set_last_row lower dotmat)
  = Ok (np_eye 4 5 ++ [lower]).
Proof.
  intros Hj Hl.
  destruct (has_shape_5_5_inv Hj)
    as (? & ? & ? & ? & ? & ? & ? & ? & ? & ? & ? & ? & ? & ? & ? &
        ? & ? & ? & ? & ? & ? & ? & ? & ? & ? & ->).
  destruct (length_5_inv lower Hl) as (? & ? & ? & ? & ? & ->).
  reflexivity.
Qed.

End Shapes.

Section PolicyShapes.

Context {T : Type} `{Scalar T}.

Lemma last_last_ok (n k : nat) (m : mat T) :
  has_shape (S n) (S k) m -> exists x, last_last m = Ok x.
Proof.
  intros Hm. destruct (last_row_shape Hm) as (a & r & -> & _ & Hr).
  unfold last_last. rewrite last_row_app. simpl.
  destruct (rev r) as [|x r'] eqn:E; [|now exists x].
  apply (f_equal (@length T)) in E. rewrite length_rev, Hr in E. discriminate.
Qed.

Lemma last_butlast_ok (n k : nat) (m : mat T) :
  has_shape (S n) (S k) m ->
  exists v, last_butlast m = Ok v /\ length v = k.
Proof.
  intros Hm. destruct (last_row_shape Hm) as (a & r & -> & _ & Hr).
  unfold last_butlast. rewrite last_row_app. simpl.
  eexists; split; [reflexivity|].
  destruct (exists_last (l := r)) as (r' & x & ->).
  { intros ->. discriminate. }
  rewrite removelast_last. rewrite length_app in Hr. simpl in Hr. lia.
Qed.

Lemma np_vstack_shape (n k : nat) (m : mat T) (v : vec T) :
  has_shape n k m -> length v = k ->
  exists c, np_vstack m v = Ok c /\ has_shape (S n) k c.
Proof.
  intros [Hl Hf] Hv. unfold np_vstack.
  rewrite forallb_length_eq by (now rewrite Hv).
  eexists; split; [reflexivity|]. split.
  - rewrite length_app. simpl. lia.
  - apply Forall_app. split; [assumption|]. now constructor.
Qed.

Lemma vscale_length (x : T) (v : vec T) : length (vscale x v) = length v.
Proof. unfold vscale. apply length_map. Qed.

(** The rearranging block raises nothing on arrays of the shapes the
    program gives it. *)
Lemma rearranging_ok (n : nat) (P F A B dotmat coeffs : mat T) :
  has_shape (S n) 5 P -> has_shape 1 5 F ->
  has_shape 5 5 A -> has_shape 5 1 B ->
  has_shape 5 5 dotmat -> has_shape 1 5 coeffs ->
  exists r, rearranging P F A B dotmat coeffs = Ok r.
Proof.
  intros HP HF HA HB Hd Hc. unfold rearranging.
  destruct (last_row_shape HP) as (Pa & Pl & -> & _ & HPl).
  rewrite last_row_app. cbn [bind].
  destruct (np_vstack_shape Pl (np_eye_shape 4 5) HPl) as (part1 & -> & H1). cbn [bind].
  destruct (np_dot_shape HB HF) as (BF & -> & HBF). cbn [bind].
  destruct (msub_shape HA HBF) as (part2 & -> & H2). cbn [bind].
  destruct (np_dot_shape H1 H2) as (m0 & -> & Hm0). cbn [bind].
  destruct (np_dot_shape Hm0 Hd) as (m & -> & Hm). cbn [bind].
  destruct (last_butlast_ok Hm) as (m12 & -> & Hm12). cbn [bind].
  destruct (last_last_ok Hm) as (m22 & ->). cbn [bind].
  destruct (np_dot_shape (mneg_shape HF) Hd) as (f & -> & Hf). cbn [bind].
  destruct (last_butlast_ok Hf) as (f11 & -> & Hf11). cbn [bind].
  destruct (last_last_ok Hf) as (f12 & ->). cbn [bind].
  destruct coeffs as [|c0 cs]; [destruct Hc; discriminate|]. cbn [first_butlast bind].
  destruct (vsub_length m12 (vscale (s_mul (np_pow_m1 f12) m22) f11)) as (t & -> & _).
  { rewrite vscale_length. congruence. }
  cbn [bind]. eexists. reflexivity.
Qed.

Lemma dotmat_shape (P21 : vec T) (x : T) :
  length P21 = 4 -> has_shape 5 5 (dotmat_of P21 x).
Proof.
  intros HP. unfold dotmat_of. split; [reflexivity|].
  apply Forall_app. split; [apply np_eye_shape|].
  constructor; [|constructor].
  unfold lower_of, np_hstack. rewrite length_app, vscale_length, HP. reflexivity.
Qed.

(** Lines 122-137 on a [P] whose last row has five entries. *)
Lemma policy_steps_eq (Ptop F : mat T) (p0 p1 p2 p3 p22 eta0 Q0 q0 : T) :
  Forall (fun r => length r = 5) F ->
  let P21 := [p0; p1; p2; p3] in
  let P22inv := np_pow_m1 p22 in
  let z0 := [s_one; eta0; Q0; q0] in
  policy_steps (Ptop ++ [[p0; p1; p2; p3; p22]]) F eta0 Q0 q0
  = Ok (Frame p22 P21 P22inv (dotmat_of P21 P22inv)
          (map (fun r => map (dotprod r) (transpose (dotmat_of P21 P22inv))) (mneg F))
          z0 (s_mul (s_opp P22inv) (dotprod P21 z0))
          (vneg (vscale P22inv P21))).
Proof.
  intros HF P21 P22inv z0. unfold policy_steps, last_last, last_butlast.
  rewrite last_row_app. cbn [bind rev app removelast].
  change (set_rows_butlast (np_eye 4 5) (np_empty 5 5))
    with (Ok (np_eye 4 5 ++ [repeat (@s_zero T _) 5])).
  cbn [bind].
  change (set_last_row _ _) with (Ok (dotmat_of P21 P22inv)).
  cbn [bind]. unfold np_dot.
  rewrite forallb_length_eq.
  2:{ apply (mneg_shape (n := length F) (k := 5)). now split. }
  reflexivity.
Qed.

End PolicyShapes.

Unset Implicit Arguments.

(** ** Facts that hold for every reading of the scalars *)

Section AnyScalar.

Context {T : Type} `{Scalar T}.

Lemma ok_not_raise {A : Type} (r : result A) (a : A) (e : exn) :
  r = Ok a -> r = Raise e -> False.
Proof. intros -> [=]. Qed.

Lemma bind_ok_inv {A B : Type} (m : result A) (k : A -> result B) (b : B) :
  bind m k = Ok b -> exists a, m = Ok a /\ k a = Ok b.
Proof. destruct m as [a|e]; simpl; [eauto | discriminate]. Qed.

(** The matrix [la.inv] returns is square, of the size of its argument. *)
Lemma la_inv_shape (m m' : mat T) :
  la_inv m = Ok m' -> has_shape (length m) (length m) m'.
Proof.
  unfold la_inv. destruct (negb _); [discriminate|].
  destruct (s_is_zero _); [discriminate|]. intros [= <-].
  unfold adjugate. split.
  - now rewrite !length_map, length_seq.
  - apply Forall_map, Forall_map, Forall_forall. intros i _.
    now rewrite !length_map, length_seq.
Qed.

(** What [setup_matrices] returns, whenever it returns: [A] and [B] are
    the products with the inverse [la.inv] gave, [Q] and [R] are the
    literals of lines 65-70. *)
Lemma setup_matrices_inv (G : Globals.t T) (params : vec T) (A B Q R : mat T) :
  setup_matrices G params = Ok (A, B, Q, R) ->
  exists Alhsinv,
    la_inv (Alhs_of G) = Ok Alhsinv /\
    s_is_zero (Globals.beta G) = false /\
    np_dot Alhsinv (Arhs_of G) = Ok A /\
    np_dot Alhsinv Brhs = Ok B /\
    Q = Q_of G /\ R = R_of G.
Proof.
  unfold setup_matrices. cbv zeta.
  change (set_row 4 _ (np_eye 5 5)) with (Ok (Alhs_of G)). cbn [bind].
  intros E. apply bind_ok_inv in E as (Alhsinv & Hinv & E).
  exists Alhsinv. split; [assumption|].
  change (set_entry 1 1 (Globals.rho G) (np_eye 5 5)) with
    (Ok [ [s_one; s_zero; s_zero; s_zero; s_zero];
          [s_zero; Globals.rho G; s_zero; s_zero; s_zero];
          [s_zero; s_zero; s_one; s_zero; s_zero];
          [s_zero; s_zero; s_zero; s_one; s_zero];
          [s_zero; s_zero; s_zero; s_zero; s_one] ] : result (mat T)) in E.
  cbn [bind] in E.
  change (set_entry 3 4 s_one _) with
    (Ok [ [s_one; s_zero; s_zero; s_zero; s_zero];
          [s_zero; Globals.rho G; s_zero; s_zero; s_zero];
          [s_zero; s_zero; s_one; s_zero; s_zero];
          [s_zero; s_zero; s_zero; s_one; s_one];
          [s_zero; s_zero; s_zero; s_zero; s_one] ] : result (mat T)) in E.
  cbn [bind] in E. unfold py_truediv in E.
  destruct (s_is_zero (Globals.beta G)); [discriminate|]. cbn [bind] in E.
  change (set_entry 4 4 _ _) with (Ok (Arhs_of G)) in E. cbn [bind] in E.
  apply bind_ok_inv in E as (A' & HA & E).
  change (transpose [[s_zero; s_zero; s_one; s_zero; s_zero]]) with (@Brhs T _) in E.
  apply bind_ok_inv in E as (B' & HB & E).
  injection E as <- <- <- <-. repeat split; assumption.
Qed.

Lemma setup_matrices_shapes (G : Globals.t T) (params : vec T) (A B Q R : mat T) :
  setup_matrices G params = Ok (A, B, Q, R) ->
  has_shape 5 5 A /\ has_shape 5 1 B /\ has_shape 1 1 Q /\ has_shape 5 5 R.
Proof.
  intros E. apply setup_matrices_inv in E as (Ai & Hinv & _ & HA & HB & -> & ->).
  apply la_inv_shape in Hinv. change (length (Alhs_of G)) with 5 in Hinv.
  destruct (np_dot_shape (n := 5) (k := 4) (m := 5) (a := Ai) (b := Arhs_of G)) as (A' & HA' & SA);
    [assumption | split; [reflexivity | repeat constructor] |].
  destruct (np_dot_shape (n := 5) (k := 4) (m := 1) (a := Ai) (b := Brhs)) as (B' & HB' & SB);
    [assumption | split; [reflexivity | repeat constructor] |].
  rewrite HA in HA'. rewrite HB in HB'. injection HA' as <-. injection HB' as <-.
  split; [exact SA|]. split; [exact SB|].
  split; (split; [reflexivity | repeat constructor]).
Qed.

(** *** [find_PFd] *)

(** C2: [find_PFd] makes one call of the external solver, with the
    builder's [Q], the negated [R] (every entry negated), [A], [B] and
    [beta] in the positions of [LQ(Q, R, A, B, beta)], and hands back the
    solver's answer as it is, a result or an exception. *)
Theorem find_PFd_passes_negated_R (stationary_values : lq_solver)
        (A B Q R : mat T) (beta : T) :
  find_PFd stationary_values A B Q R beta
    = stationary_values Q (mneg R) A B beta /\
  mneg R = map (map s_opp) R /\
  find_PFd echo_solver A B Q R beta = Ok (Q ++ map (map s_opp) R ++ A ++ B, [], beta).
Proof.
  split; [|split; reflexivity].
  unfold find_PFd. destruct (stationary_values Q (mneg R) A B beta) as [[[P F] d]|e];
    reflexivity.
Qed.

(** C6: the [R] that [setup_matrices] returns equals its transpose; its
    entries (0,2) and (2,0) are [(a0 - e) / 2], its entries (1,2) and (2,1)
    are [1 / 2]. *)
Theorem R_symmetric (G : Globals.t T) (params : vec T) (A B Q R : mat T) :
  setup_matrices G params = Ok (A, B, Q, R) ->
  transpose R = R /\
  entry R 0 2 = s_div (s_sub (Globals.a0 G) (Globals.e G)) two /\
  entry R 2 0 = s_div (s_sub (Globals.a0 G) (Globals.e G)) two /\
  entry R 1 2 = s_div s_one two /\
  entry R 2 1 = s_div s_one two.
Proof.
  intros E. apply setup_matrices_inv in E as (_ & _ & _ & _ & _ & _ & ->).
  repeat split.
Qed.

(** *** The value returned by [solve_for_opt_policy] *)

Lemma find_PFd_ok (stationary_values : lq_solver) (A B Q R P F : mat T) (beta d : T) :
  stationary_values Q (mneg R) A B beta = Ok (P, F, d) ->
  find_PFd stationary_values A B Q R beta = Ok (P, F, d).
Proof. intros E. unfold find_PFd. now rewrite E. Qed.

(** When the builder succeeds and the solver returns a [P] with five
    columns and a 1x5 [F], the whole function returns [(P, F, D0)] with
    [D0 = -(P22inv * P21)]; nothing in lines 122-156 raises. *)
Lemma solve_for_opt_policy_returns
      (G : Globals.t T) (stationary_values : lq_solver) (params : vec T)
      (A B Q R Ptop : mat T) (p0 p1 p2 p3 p22 f0 f1 f2 f3 f4 d eta0 Q0 q0 : T) :
  let P := Ptop ++ [[p0; p1; p2; p3; p22]] in
  let F := [[f0; f1; f2; f3; f4]] in
  setup_matrices G params = Ok (A, B, Q, R) ->
  stationary_values Q (mneg R) A B (Globals.beta G) = Ok (P, F, d) ->
  has_shape 4 5 Ptop ->
  solve_for_opt_policy G stationary_values params eta0 Q0 q0
  = Ok (P, F, vneg (vscale (np_pow_m1 p22) [p0; p1; p2; p3])).
Proof.
  intros P F HS HL [HPl HPf]. unfold solve_for_opt_policy.
  rewrite HS. cbn [bind]. rewrite (find_PFd_ok _ _ _ _ _ _ _ _ _ HL). cbn [bind].
  assert (HF : has_shape 1 5 F) by (split; [reflexivity | repeat constructor]).
  unfold P at 1. rewrite policy_steps_eq by apply HF. cbn [bind fr_dotmat fr_coeffs fr_D0].
  apply setup_matrices_shapes in HS as (SA & SB & _ & _).
  pose proof (dotmat_shape [p0; p1; p2; p3] (np_pow_m1 p22) eq_refl) as Sd.
  destruct (np_dot_shape (mneg_shape HF) Sd) as (cf & Hcf & Scf).
  apply np_dot_ok_inv in Hcf as (_ & ->).
  destruct (rearranging_ok (n := 4) (P := P) (F := F) (A := A) (B := B)
              (dotmat := dotmat_of [p0; p1; p2; p3] (np_pow_m1 p22))
              (coeffs := map (fun r => map (dotprod r)
                 (transpose (dotmat_of [p0; p1; p2; p3] (np_pow_m1 p22)))) (mneg F)))
    as (r & ->); try assumption.
  - split.
    + unfold P. rewrite length_app, HPl. reflexivity.
    + apply Forall_app. split; [assumption | repeat constructor].
  - reflexivity.
Qed.

(** C10: wherever [solve_for_opt_policy] returns a value, the function
    with lines 139-156 removed returns the same value. *)
Theorem rearranging_does_not_change_result
        (G : Globals.t T) (stationary_values : lq_solver) (params : vec T)
        (eta0 Q0 q0 : T) (out : mat T * mat T * vec T) :
  solve_for_opt_policy G stationary_values params eta0 Q0 q0 = Ok out ->
  solve_for_opt_policy_without_rearranging G stationary_values params eta0 Q0 q0
  = Ok out.
Proof.
  unfold solve_for_opt_policy, solve_for_opt_policy_without_rearranging.
  destruct (setup_matrices G params) as [[[[A B] Q] R]|e]; [|discriminate].
  cbn [bind].
  destruct (find_PFd stationary_values A B Q R (Globals.beta G)) as [[[P F] d]|e];
    [|discriminate].
  cbn [bind].
  destruct (policy_steps P F eta0 Q0 q0) as [fr|e]; [|discriminate].
  cbn [bind].
  destruct (rearranging P F A B (fr_dotmat fr) (fr_coeffs fr)) as [r|e];
    [|discriminate].
  cbn [bind]. trivial.
Qed.

(** [params] is never read. *)
Lemma setup_matrices_ignores_params (G : Globals.t T) (p1 p2 : vec T) :
  setup_matrices G p1 = setup_matrices G p2.
Proof. reflexivity. Qed.

End AnyScalar.

(** ** The Matrix Builder in exact arithmetic *)

Ltac qc_ops :=
  cbv [s_zero s_one s_add s_sub s_mul s_div s_opp s_is_zero Scalar_Qc two].

Ltac list_eq :=
  repeat match goal with
   | |- _ :: _ = _ :: _ => apply (f_equal2 cons)
   | |- [] = [] => reflexivity
   | |- Ok _ = Ok _ => apply f_equal
   | |- (_, _) = (_, _) => apply f_equal2
   end.

Ltac unfold_det :=
  cbv [Alhs_of Alhsinv_of Arhs_of A_of B_of Brhs
       Globals.a0 Globals.a1 Globals.rho Globals.c Globals.d Globals.h Globals.beta
       adjugate cofactor minor Nat.sub Nat.add
       det seq map drop_nth firstn skipn app nth fold_left signed Nat.even
       transpose ncols col length dotprod combine fst snd].

Lemma is_zero_Qc (x : Qc) : s_is_zero x = true <-> x = 0%Qc.
Proof.
  cbn. unfold Qc_eq_bool.
  destruct (Qc_eq_dec x 0); split; intros; try discriminate; auto.
Qed.

Lemma is_zero_Qc_false (x : Qc) : s_is_zero x = false <-> x <> 0%Qc.
Proof.
  rewrite <- is_zero_Qc. destruct (s_is_zero x); split; congruence.
Qed.

Lemma Alhs_built {T : Type} `{Scalar T} (G : Globals.t T) :
  set_row 4 [s_sub (Globals.a0 G) (Globals.d G); s_one; s_opp (Globals.a1 G);
             s_sub (s_opp (Globals.a1 G)) (Globals.h G); Globals.c G] (np_eye 5 5)
  = Ok (Alhs_of G).
Proof. reflexivity. Qed.

Lemma Arhs_built {T : Type} `{Scalar T} (G : Globals.t T) :
  (Arhs <- set_entry 1 1 (Globals.rho G) (np_eye 5 5) ;;
   Arhs <- set_entry 3 4 s_one Arhs ;;
   set_entry 4 4 (s_div (Globals.c G) (Globals.beta G)) Arhs)
  = Ok (Arhs_of G).
Proof. reflexivity. Qed.

Lemma det_Alhs (G : Globals.t Qc) : det 5 (Alhs_of G) = Globals.c G.
Proof.
  destruct G as [a0 a1 rho ceps c d e g h beta].
  unfold_det. qc_ops. ring.
Qed.

Lemma la_inv_Alhs (G : Globals.t Qc) :
  Globals.c G <> 0%Qc -> la_inv (Alhs_of G) = Ok (Alhsinv_of G).
Proof.
  intros Hc. unfold la_inv.
  change (negb _) with false. cbv iota.
  change (length (Alhs_of G)) with 5. cbv zeta.
  rewrite det_Alhs.
  rewrite (proj2 (is_zero_Qc_false _) Hc).
  destruct G as [a0 a1 rho ceps c d e g h beta].
  unfold_det. qc_ops. list_eq; field; exact Hc.
Qed.

Lemma la_inv_Alhs_singular (G : Globals.t Qc) :
  Globals.c G = 0%Qc -> la_inv (Alhs_of G) = Raise LinAlgError.
Proof.
  intros Hc. unfold la_inv.
  change (negb _) with false. cbv iota.
  change (length (Alhs_of G)) with 5. cbv zeta.
  rewrite det_Alhs.
  now rewrite (proj2 (is_zero_Qc _) Hc).
Qed.

Lemma Alhsinv_Arhs (G : Globals.t Qc) :
  Globals.c G <> 0%Qc -> Globals.beta G <> 0%Qc ->
  np_dot (Alhsinv_of G) (Arhs_of G) = Ok (A_of G).
Proof.
  intros Hc Hb. destruct G as [a0 a1 rho ceps c d e g h beta].
  unfold np_dot. change (forallb _ _) with true. cbv iota.
  unfold_det. qc_ops. cbn in Hc, Hb. list_eq; field; auto.
Qed.

Lemma Alhsinv_Brhs (G : Globals.t Qc) :
  Globals.c G <> 0%Qc ->
  np_dot (Alhsinv_of G) Brhs = Ok (B_of G).
Proof.
  intros Hc. destruct G as [a0 a1 rho ceps c d e g h beta].
  unfold np_dot. change (forallb _ _) with true. cbv iota.
  unfold_det. qc_ops. cbn in Hc. list_eq; field; auto.
Qed.

(** What [setup_matrices] does on every input, in exact arithmetic. *)
Lemma setup_matrices_cases (G : Globals.t Qc) (params : vec Qc) :
  setup_matrices G params =
  if s_is_zero (Globals.c G) then Raise LinAlgError
  else if s_is_zero (Globals.beta G) then Raise ZeroDivisionError
  else Ok (A_of G, B_of G, Q_of G, R_of G).
Proof.
  unfold setup_matrices. cbv zeta.
  rewrite Alhs_built. cbn [bind].
  destruct (s_is_zero (Globals.c G)) eqn:Ec.
  { apply is_zero_Qc in Ec. now rewrite la_inv_Alhs_singular. }
  apply is_zero_Qc_false in Ec. rewrite la_inv_Alhs by assumption. cbn [bind].
  change (set_entry 1 1 (Globals.rho G) (np_eye 5 5)) with
    (Ok [ [s_one; s_zero; s_zero; s_zero; s_zero];
          [s_zero; Globals.rho G; s_zero; s_zero; s_zero];
          [s_zero; s_zero; s_one; s_zero; s_zero];
          [s_zero; s_zero; s_zero; s_one; s_zero];
          [s_zero; s_zero; s_zero; s_zero; s_one] ] : result (mat Qc)).
  cbn [bind].
  change (set_entry 3 4 s_one _) with
    (Ok [ [s_one; s_zero; s_zero; s_zero; s_zero];
          [s_zero; Globals.rho G; s_zero; s_zero; s_zero];
          [s_zero; s_zero; s_one; s_zero; s_zero];
          [s_zero; s_zero; s_zero; s_one; s_one];
          [s_zero; s_zero; s_zero; s_zero; s_one] ] : result (mat Qc)).
  cbn [bind]. unfold py_truediv.
  destruct (s_is_zero (Globals.beta G)) eqn:Eb; [reflexivity|].
  apply is_zero_Qc_false in Eb. cbn [bind].
  change (set_entry 4 4 _ _) with (Ok (Arhs_of G)). cbn [bind].
  rewrite Alhsinv_Arhs by assumption. cbn [bind].
  change (transpose [[s_zero; s_zero; s_one; s_zero; s_zero]]) with (@Brhs Qc _).
  rewrite Alhsinv_Brhs by assumption. reflexivity.
Qed.

(** ** The model of [la.inv] is the inverse, for every 5x5 matrix *)

Ltac unfold_dot :=
  cbv [mscale mdiv seq map app nth fold_left
       transpose ncols col length dotprod combine fst snd np_eye Nat.eqb].

Section General5x5.

Variables a00 a01 a02 a03 a04 a10 a11 a12 a13 a14 a20 a21 a22 a23 a24
          a30 a31 a32 a33 a34 a40 a41 a42 a43 a44 : Qc.

Let m : mat Qc :=
  [ [a00; a01; a02; a03; a04]; [a10; a11; a12; a13; a14];
    [a20; a21; a22; a23; a24]; [a30; a31; a32; a33; a34];
    [a40; a41; a42; a43; a44] ].

Lemma adjugate_right :
  np_dot m (adjugate 5 m) = Ok (mscale (np_eye 5 5) (det 5 m)).
Proof.
  unfold np_dot. change (forallb _ _) with true. cbv iota.
  cbv [m]. unfold_det. unfold_dot. qc_ops. list_eq; ring.
Qed.

Lemma adjugate_left :
  np_dot (adjugate 5 m) m = Ok (mscale (np_eye 5 5) (det 5 m)).
Proof.
  unfold np_dot. change (forallb _ _) with true. cbv iota.
  cbv [m]. unfold_det. unfold_dot. qc_ops. list_eq; ring.
Qed.

Variables c00 c01 c02 c03 c04 c10 c11 c12 c13 c14 c20 c21 c22 c23 c24
          c30 c31 c32 c33 c34 c40 c41 c42 c43 c44 : Qc.

Let C : mat Qc :=
  [ [c00; c01; c02; c03; c04]; [c10; c11; c12; c13; c14];
    [c20; c21; c22; c23; c24]; [c30; c31; c32; c33; c34];
    [c40; c41; c42; c43; c44] ].

Lemma np_dot_mdiv_r (k : Qc) :
  k <> 0%Qc ->
  np_dot m (mdiv C k) = (X <- np_dot m C ;; Ok (mdiv X k)).
Proof.
  intros Hk. unfold np_dot. change (forallb _ _) with true.
  change (forallb _ _) with true. cbv iota. cbn [bind].
  cbv [m C]. unfold_dot. qc_ops. list_eq; field; exact Hk.
Qed.

Lemma np_dot_mdiv_l (k : Qc) :
  k <> 0%Qc ->
  np_dot (mdiv C k) m = (X <- np_dot C m ;; Ok (mdiv X k)).
Proof.
  intros Hk. unfold np_dot. change (forallb _ _) with true.
  change (forallb _ _) with true. cbv iota. cbn [bind].
  cbv [m C]. unfold_dot. qc_ops. list_eq; field; exact Hk.
Qed.

End General5x5.

Lemma mdiv_mscale_eye (k : Qc) :
  k <> 0%Qc -> mdiv (mscale (np_eye 5 5) k) k = np_eye 5 5.
Proof.
  intros Hk. unfold_dot. qc_ops. list_eq; field; exact Hk.
Qed.

Ltac as_25_entries H :=
  destruct H
    as (?a00 & ?a01 & ?a02 & ?a03 & ?a04 & ?a10 & ?a11 & ?a12 & ?a13 & ?a14 &
        ?a20 & ?a21 & ?a22 & ?a23 & ?a24 & ?a30 & ?a31 & ?a32 & ?a33 & ?a34 &
        ?a40 & ?a41 & ?a42 & ?a43 & ?a44 & ->).

Lemma adjugate_shape (m : mat Qc) : has_shape 5 5 (adjugate 5 m).
Proof. split; [reflexivity | repeat constructor]. Qed.

Lemma adjugate_mul (m : mat Qc) :
  has_shape 5 5 m ->
  np_dot m (adjugate 5 m) = Ok (mscale (np_eye 5 5) (det 5 m)) /\
  np_dot (adjugate 5 m) m = Ok (mscale (np_eye 5 5) (det 5 m)).
Proof.
  intros Hm. as_25_entries (has_shape_5_5_inv Hm).
  split; [apply adjugate_right | apply adjugate_left].
Qed.

Lemma np_dot_mdiv (m C : mat Qc) (k : Qc) :
  has_shape 5 5 m -> has_shape 5 5 C -> k <> 0%Qc ->
  np_dot m (mdiv C k) = (X <- np_dot m C ;; Ok (mdiv X k)) /\
  np_dot (mdiv C k) m = (X <- np_dot C m ;; Ok (mdiv X k)).
Proof.
  intros Hm HC Hk.
  as_25_entries (has_shape_5_5_inv Hm). as_25_entries (has_shape_5_5_inv HC).
  split; [now apply np_dot_mdiv_r | now apply np_dot_mdiv_l].
Qed.

(** Whatever [la_inv] returns for a 5x5 matrix is its two-sided inverse,
    and it raises exactly on a zero determinant. *)
Lemma la_inv_sound (m : mat Qc) :
  has_shape 5 5 m ->
  match la_inv m with
  | Ok m' => det 5 m <> 0%Qc /\
             np_dot m m' = Ok (np_eye 5 5) /\ np_dot m' m = Ok (np_eye 5 5)
  | Raise e => e = LinAlgError /\ det 5 m = 0%Qc
  end.
Proof.
  intros Hm. unfold la_inv.
  rewrite (proj1 Hm), forallb_length_eq by apply Hm. cbn [negb]. cbv zeta.
  destruct (s_is_zero (det 5 m)) eqn:E.
  { apply is_zero_Qc in E. now split. }
  apply is_zero_Qc_false in E. split; [exact E|].
  change (map (map (fun x => s_div x (det 5 m))) (adjugate 5 m))
    with (mdiv (adjugate 5 m) (det 5 m)).
  destruct (np_dot_mdiv m (adjugate 5 m) (det 5 m) Hm (adjugate_shape m) E) as [-> ->].
  destruct (adjugate_mul m Hm) as [-> ->]. cbn [bind].
  now rewrite mdiv_mscale_eye.
Qed.

(** ** What the builder returns *)

Lemma setup_matrices_ok (G : Globals.t Qc) (params : vec Qc) :
  Globals.c G <> 0%Qc -> Globals.beta G <> 0%Qc ->
  setup_matrices G params = Ok (A_of G, B_of G, Q_of G, R_of G).
Proof.
  intros Hc Hb. rewrite setup_matrices_cases.
  now rewrite (proj2 (is_zero_Qc_false _) Hc), (proj2 (is_zero_Qc_false _) Hb).
Qed.

Lemma setup_matrices_ok_inv (G : Globals.t Qc) (params : vec Qc) (A B Q R : mat Qc) :
  setup_matrices G params = Ok (A, B, Q, R) ->
  Globals.c G <> 0%Qc /\ Globals.beta G <> 0%Qc /\
  A = A_of G /\ B = B_of G /\ Q = Q_of G /\ R = R_of G.
Proof.
  rewrite setup_matrices_cases.
  destruct (s_is_zero (Globals.c G)) eqn:Ec; [discriminate|].
  destruct (s_is_zero (Globals.beta G)) eqn:Eb; [discriminate|].
  intros [= <- <- <- <-].
  apply is_zero_Qc_false in Ec, Eb. repeat split; assumption.
Qed.

Lemma Alhs_Alhsinv (G : Globals.t Qc) :
  Globals.c G <> 0%Qc ->
  np_dot (Alhs_of G) (Alhsinv_of G) = Ok (np_eye 5 5) /\
  np_dot (Alhsinv_of G) (Alhs_of G) = Ok (np_eye 5 5).
Proof.
  intros Hc. destruct G as [a0 a1 rho ceps c d e g h beta]. cbn in Hc.
  unfold np_dot. change (forallb _ _) with true. change (forallb _ _) with true.
  cbv iota. unfold_det. cbv [np_eye Nat.eqb seq map]. qc_ops.
  split; list_eq; field; exact Hc.
Qed.

Lemma Alhs_A (G : Globals.t Qc) :
  Globals.c G <> 0%Qc -> Globals.beta G <> 0%Qc ->
  np_dot (Alhs_of G) (A_of G) = Ok (Arhs_of G) /\
  np_dot (Alhs_of G) (B_of G) = Ok Brhs.
Proof.
  intros Hc Hb. destruct G as [a0 a1 rho ceps c d e g h beta]. cbn in Hc, Hb.
  unfold np_dot. change (forallb _ _) with true. change (forallb _ _) with true.
  cbv iota. unfold_det. qc_ops.
  split; list_eq; field; auto.
Qed.

(** C1, as amended: with [Alhs] invertible (c <> 0) and beta <> 0,
    [setup_matrices] returns [A = Alhs^-1 . Arhs] and
    [B = Alhs^-1 . [0,0,1,0,0]^T], where [Alhs^-1] is the inverse [la.inv]
    returns for [Alhs] and is a two-sided inverse of it; [Alhs] is the
    identity but for its last row and [Arhs] the identity but for (1,1),
    (3,4) and (4,4). *)
Theorem setup_matrices_A_B (G : Globals.t Qc) (params : vec Qc) :
  Globals.c G <> 0%Qc -> Globals.beta G <> 0%Qc ->
  exists Alhsinv A B Q R,
    setup_matrices G params = Ok (A, B, Q, R) /\
    la_inv (Alhs_of G) = Ok Alhsinv /\
    np_dot (Alhs_of G) Alhsinv = Ok (np_eye 5 5) /\
    np_dot Alhsinv (Alhs_of G) = Ok (np_eye 5 5) /\
    np_dot Alhsinv (Arhs_of G) = Ok A /\
    np_dot Alhsinv Brhs = Ok B /\
    np_dot (Alhs_of G) A = Ok (Arhs_of G) /\
    np_dot (Alhs_of G) B = Ok Brhs /\
    Alhs_of G = [ [1; 0; 0; 0; 0]; [0; 1; 0; 0; 0]; [0; 0; 1; 0; 0]; [0; 0; 0; 1; 0];
                  [Globals.a0 G - Globals.d G; 1; - Globals.a1 G;
                   - Globals.a1 G - Globals.h G; Globals.c G] ]%Qc /\
    Arhs_of G = [ [1; 0; 0; 0; 0]; [0; Globals.rho G; 0; 0; 0]; [0; 0; 1; 0; 0];
                  [0; 0; 0; 1; 1]; [0; 0; 0; 0; Globals.c G / Globals.beta G] ]%Qc.
Proof.
  intros Hc Hb.
  exists (Alhsinv_of G), (A_of G), (B_of G), (Q_of G), (R_of G).
  destruct (Alhs_Alhsinv G Hc) as [H1 H2]. destruct (Alhs_A G Hc Hb) as [H3 H4].
  repeat split; auto using setup_matrices_ok, la_inv_Alhs, Alhsinv_Arhs, Alhsinv_Brhs.
Qed.

Lemma setup_matrices_A_B_witness :
  exists Alhsinv A B Q R,
    setup_matrices script_globals_Qc script_params_Qc = Ok (A, B, Q, R) /\
    la_inv (Alhs_of script_globals_Qc) = Ok Alhsinv /\
    np_dot (Alhs_of script_globals_Qc) Alhsinv = Ok (np_eye 5 5) /\
    np_dot Alhsinv (Alhs_of script_globals_Qc) = Ok (np_eye 5 5) /\
    np_dot Alhsinv (Arhs_of script_globals_Qc) = Ok A /\
    np_dot Alhsinv Brhs = Ok B /\
    np_dot (Alhs_of script_globals_Qc) A = Ok (Arhs_of script_globals_Qc) /\
    np_dot (Alhs_of script_globals_Qc) B = Ok Brhs.
Proof.
  destruct (setup_matrices_A_B script_globals_Qc script_params_Qc)
    as (Ai & A & B & Q & R & H).
  - discriminate.
  - discriminate.
  - exists Ai, A, B, Q, R. repeat split; apply H.
Defined.

(** C1 as stated fails where beta = 0: [Alhs] is invertible (c = 1) but
    line 62 divides by zero and nothing is returned. *)
Lemma setup_matrices_beta_zero :
  det 5 (Alhs_of beta_zero_globals) <> 0%Qc /\
  la_inv (Alhs_of beta_zero_globals) = Ok (Alhsinv_of beta_zero_globals) /\
  setup_matrices beta_zero_globals (params_of beta_zero_globals)
  = Raise ZeroDivisionError.
Proof.
  split; [discriminate|]. split; [|reflexivity].
  apply la_inv_Alhs. discriminate.
Qed.

(** C4: a singular [Alhs] (its determinant is [c], so exactly when c = 0)
    makes [la.inv] raise at line 55, and [setup_matrices] raises that
    [LinAlgError]; no matrix is returned. *)
Theorem setup_matrices_singular_raises (G : Globals.t Qc) (params : vec Qc) :
  det 5 (Alhs_of G) = 0%Qc ->
  Globals.c G = 0%Qc /\
  la_inv (Alhs_of G) = Raise LinAlgError /\
  setup_matrices G params = Raise LinAlgError.
Proof.
  rewrite det_Alhs. intros Hc. split; [assumption|].
  split; [now apply la_inv_Alhs_singular|].
  rewrite setup_matrices_cases. now rewrite (proj2 (is_zero_Qc _) Hc).
Qed.

Lemma setup_matrices_singular_raises_witness :
  Globals.c c_zero_globals = 0%Qc /\
  la_inv (Alhs_of c_zero_globals) = Raise LinAlgError /\
  setup_matrices c_zero_globals (params_of c_zero_globals) = Raise LinAlgError.
Proof.
  apply (setup_matrices_singular_raises c_zero_globals (params_of c_zero_globals)).
  rewrite det_Alhs. reflexivity.
Defined.

(** The converse of C4: with c <> 0 the inversion does not raise. *)
Lemma det_Alhs_nonzero_inverts (G : Globals.t Qc) :
  det 5 (Alhs_of G) <> 0%Qc -> la_inv (Alhs_of G) = Ok (Alhsinv_of G).
Proof. rewrite det_Alhs. apply la_inv_Alhs. Qed.

Lemma Qc_one_neq_zero : 1%Qc <> 0%Qc.
Proof. discriminate. Qed.

Lemma Qcdiv_eq_zero (x y : Qc) : y <> 0%Qc -> (x / y = 0)%Qc -> x = 0%Qc.
Proof.
  intros Hy E. replace x with (x / y * y)%Qc by (field; assumption).
  rewrite E. ring.
Qed.

(** C5 as stated fails on the script's own values: [B] has two rows that
    are not zero. *)
Lemma B_has_two_nonzero_rows :
  exists A B Q R,
    setup_matrices script_globals_Qc script_params_Qc = Ok (A, B, Q, R) /\
    nonzero_rows B = 2.
Proof.
  exists (A_of script_globals_Qc), (B_of script_globals_Qc),
         (Q_of script_globals_Qc), (R_of script_globals_Qc).
  split; [|reflexivity].
  apply setup_matrices_ok; discriminate.
Qed.

(** C5, as amended: whenever [setup_matrices] returns, [B] is the column
    [0, 0, 1, 0, a1/c]: rows 0, 1 and 3 are zero, row 2 is one, and row 4 is
    zero exactly when a1 = 0; so [B] has two nonzero rows, or one when
    a1 = 0. *)
Theorem B_zero_pattern (G : Globals.t Qc) (params : vec Qc) (A B Q R : mat Qc) :
  setup_matrices G params = Ok (A, B, Q, R) ->
  B = [ [0]; [0]; [1]; [0]; [Globals.a1 G / Globals.c G] ]%Qc /\
  nonzero_rows B = (if s_is_zero (Globals.a1 G) then 1 else 2).
Proof.
  intros E. apply setup_matrices_ok_inv in E as (Hc & _ & _ & -> & _ & _).
  split; [reflexivity|].
  unfold nonzero_rows, B_of. cbn [filter existsb orb].
  rewrite (proj2 (is_zero_Qc 0%Qc) eq_refl).
  rewrite (proj2 (is_zero_Qc_false 1%Qc) Qc_one_neq_zero). cbn [negb orb length].
  destruct (s_is_zero (Globals.a1 G)) eqn:Ea.
  - apply is_zero_Qc in Ea. rewrite Ea.
    replace (0 / Globals.c G)%Qc with 0%Qc by (field; assumption).
    rewrite (proj2 (is_zero_Qc 0%Qc) eq_refl). reflexivity.
  - apply is_zero_Qc_false in Ea.
    assert (Hq : (Globals.a1 G / Globals.c G)%Qc <> 0%Qc).
    { intros E. apply Ea. apply (Qcdiv_eq_zero _ (Globals.c G)); assumption. }
    rewrite (proj2 (is_zero_Qc_false _) Hq). reflexivity.
Qed.

Lemma B_zero_pattern_witness :
  B_of script_globals_Qc = [ [0]; [0]; [1]; [0]; [qc 1 1 / qc 1 1] ]%Qc /\
  nonzero_rows (B_of script_globals_Qc) = 2.
Proof.
  apply (B_zero_pattern script_globals_Qc script_params_Qc
           (A_of script_globals_Qc) (B_of script_globals_Qc)
           (Q_of script_globals_Qc) (R_of script_globals_Qc)).
  apply setup_matrices_ok; discriminate.
Defined.

(** ** Steps 3 and 4 in exact arithmetic *)

(** C8: for a 5x5 [P] with last row [p0, p1, p2, p3, p22], p22 <> 0, and a
    1x5 [F]: [P22inv] is the inverse of [P22]; [dotmat] is the first four
    rows of the identity over the row [-P22inv*P21, P22inv];
    [coeffs = (-F) . dotmat]; [z0 = [1, eta0, Q0, q0]];
    [x0 = -P22inv * (P21 . z0)]; [D0 = -P22inv * P21]; and the function
    returns [(P, F, D0)] for the [(P, F, d)] the solver gave. *)
Theorem policy_steps_closed_form
        (Ptop : mat Qc) (p0 p1 p2 p3 p22 f0 f1 f2 f3 f4 eta0 Q0 q0 : Qc) :
  has_shape 4 5 Ptop -> p22 <> 0%Qc ->
  let P := Ptop ++ [[p0; p1; p2; p3; p22]] in
  let F := [[f0; f1; f2; f3; f4]] in
  let P22inv := (1 / p22)%Qc in
  exists fr,
    policy_steps P F eta0 Q0 q0 = Ok fr /\
    last_last P = Ok p22 /\ fr_P22 fr = p22 /\
    last_butlast P = Ok [p0; p1; p2; p3] /\ fr_P21 fr = [p0; p1; p2; p3] /\
    fr_P22inv fr = P22inv /\ (P22inv * p22 = 1)%Qc /\
    fr_dotmat fr =
      [ [1; 0; 0; 0; 0]; [0; 1; 0; 0; 0]; [0; 0; 1; 0; 0]; [0; 0; 0; 1; 0];
        [- P22inv * p0; - P22inv * p1; - P22inv * p2; - P22inv * p3; P22inv] ]%Qc /\
    np_dot (mneg F) (fr_dotmat fr) = Ok (fr_coeffs fr) /\
    fr_coeffs fr =
      [ [ - f0 + f4 * (P22inv * p0); - f1 + f4 * (P22inv * p1);
          - f2 + f4 * (P22inv * p2); - f3 + f4 * (P22inv * p3);
          - f4 * P22inv ] ]%Qc /\
    fr_z0 fr = [1%Qc; eta0; Q0; q0] /\
    vdot [p0; p1; p2; p3] (fr_z0 fr) = Ok (p0 + p1 * eta0 + p2 * Q0 + p3 * q0)%Qc /\
    fr_x0 fr = (- P22inv * (p0 + p1 * eta0 + p2 * Q0 + p3 * q0))%Qc /\
    fr_D0 fr = [ - P22inv * p0; - P22inv * p1; - P22inv * p2; - P22inv * p3 ]%Qc /\
    forall (G : Globals.t Qc) (stationary_values : lq_solver) (params : vec Qc)
           (A B Q R : mat Qc) (d : Qc),
      setup_matrices G params = Ok (A, B, Q, R) ->
      stationary_values Q (mneg R) A B (Globals.beta G) = Ok (P, F, d) ->
      solve_for_opt_policy G stationary_values params eta0 Q0 q0
      = Ok (P, F, fr_D0 fr).
Proof.
  intros HP Hp P F P22inv.
  eexists. split.
  { unfold P, F. apply policy_steps_eq. repeat constructor. }
  cbn [fr_P22 fr_P21 fr_P22inv fr_dotmat fr_coeffs fr_z0 fr_x0 fr_D0].
  split. { unfold P, last_last. rewrite last_row_app. reflexivity. }
  split; [reflexivity|].
  split. { unfold P, last_butlast. rewrite last_row_app. reflexivity. }
  split; [reflexivity|]. split; [reflexivity|].
  split. { unfold P22inv. field. assumption. }
  split. { reflexivity. }
  split. { reflexivity. }
  split.
  { cbv [F mneg vneg map dotmat_of lower_of np_hstack vscale app np_eye seq Nat.eqb
         transpose ncols col length nth dotprod combine fold_left fst snd np_pow_m1].
    qc_ops. fold P22inv. list_eq; ring. }
  split; [reflexivity|].
  split. { unfold vdot. cbn [length Nat.eqb]. f_equal.
           cbv [dotprod combine fold_left fst snd]. qc_ops. ring. }
  split. { cbv [dotprod combine fold_left fst snd np_pow_m1]. qc_ops. fold P22inv. ring. }
  split. { cbv [vneg vscale map np_pow_m1]. qc_ops. fold P22inv. list_eq; ring. }
  intros G sv params A B Q R d HS HL.
  apply (solve_for_opt_policy_returns G sv params A B Q R Ptop
           p0 p1 p2 p3 p22 f0 f1 f2 f3 f4 d eta0 Q0 q0 HS HL HP).
Qed.

Lemma policy_steps_closed_form_witness :
  exists fr,
    policy_steps P_sample_Qc F_sample_Qc 0%Qc 0%Qc 0%Qc = Ok fr /\
    fr_D0 fr = [ - (1 / qc 4 1) * qc 1 1; - (1 / qc 4 1) * qc 0 1;
                 - (1 / qc 4 1) * qc (-2) 1; - (1 / qc 4 1) * qc 3 1 ]%Qc.
Proof.
  destruct (policy_steps_closed_form P_top_Qc
              (qc 1 1) (qc 0 1) (qc (-2) 1) (qc 3 1) (qc 4 1)
              (qc 1 1) (qc 2 1) (qc 3 1) (qc 4 1) (qc 5 1) 0%Qc 0%Qc 0%Qc)
    as (fr & Hps & _ & _ & _ & _ & _ & _ & _ & _ & _ & _ & _ & _ & HD0 & _).
  - split; [reflexivity | repeat constructor].
  - discriminate.
  - exists fr. split; assumption.
Defined.

(** ** The program in binary64 *)

Lemma setup_matrices_script :
  setup_matrices script_globals script_params
  = Ok (script_A, script_B, script_Q, script_R).
Proof. vm_compute. reflexivity. Qed.

Lemma R_symmetric_witness :
  transpose script_R = script_R /\
  entry script_R 0 2
    = s_div (s_sub (Globals.a0 script_globals) (Globals.e script_globals)) two /\
  entry script_R 2 0
    = s_div (s_sub (Globals.a0 script_globals) (Globals.e script_globals)) two /\
  entry script_R 1 2 = s_div s_one two /\
  entry script_R 2 1 = s_div s_one two.
Proof.
  exact (R_symmetric script_globals script_params
           script_A script_B script_Q script_R setup_matrices_script).
Defined.

(** C7: on the script's parameter values [setup_matrices] returns a 5x5
    [A], a 5x1 [B], [Q = [[0.5]]] and a symmetric 5x5 [R] with entries
    (0,2) = (2,0) = 40.0 and (1,2) = (2,1) = 0.5, computed in binary64; the
    same holds in exact arithmetic. *)
Theorem script_matrices_values :
  (exists A B Q R : mat float,
      setup_matrices script_globals script_params = Ok (A, B, Q, R) /\
      has_shape 5 5 A /\ has_shape 5 1 B /\ Q = [[0.5%float]] /\
      has_shape 5 5 R /\ transpose R = R /\
      entry R 0 2 = 40%float /\ entry R 2 0 = 40%float /\
      entry R 1 2 = 0.5%float /\ entry R 2 1 = 0.5%float) /\
  (exists A B Q R : mat Qc,
      setup_matrices script_globals_Qc script_params_Qc = Ok (A, B, Q, R) /\
      has_shape 5 5 A /\ has_shape 5 1 B /\ Q = [[qc 1 2]] /\
      has_shape 5 5 R /\ transpose R = R /\
      entry R 0 2 = qc 40 1 /\ entry R 2 0 = qc 40 1 /\
      entry R 1 2 = qc 1 2 /\ entry R 2 1 = qc 1 2).
Proof.
  split.
  - exists script_A, script_B, script_Q, script_R.
    split; [exact setup_matrices_script|].
    destruct (setup_matrices_shapes _ _ _ _ _ _ setup_matrices_script)
      as (SA & SB & _ & SR).
    split; [exact SA|]. split; [exact SB|]. split; [reflexivity|].
    split; [exact SR|]. repeat split.
  - assert (E : setup_matrices script_globals_Qc script_params_Qc
                = Ok (A_of script_globals_Qc, B_of script_globals_Qc,
                      Q_of script_globals_Qc, R_of script_globals_Qc))
      by (apply setup_matrices_ok; discriminate).
    exists (A_of script_globals_Qc), (B_of script_globals_Qc),
           (Q_of script_globals_Qc), (R_of script_globals_Qc).
    split; [exact E|].
    destruct (setup_matrices_shapes _ _ _ _ _ _ E) as (SA & SB & _ & SR).
    split; [exact SA|]. split; [exact SB|].
    split. { unfold Q_of. list_eq. apply Qc_is_canon. reflexivity. }
    split; [exact SR|]. split; [reflexivity|].
    repeat split; apply Qc_is_canon; reflexivity.
Qed.

(** *** Infinities and NaN *)

Lemma float_zero_spec (x : float) :
  PrimFloat.eqb x 0 = true -> exists s, Prim2SF x = S754_zero s.
Proof.
  rewrite eqb_spec. change (Prim2SF 0) with (S754_zero false).
  destruct (Prim2SF x) as [s|s| |s m e]; cbn.
  - eauto.
  - destruct s; discriminate.
  - discriminate.
  - destruct s; discriminate.
Qed.

(** numpy's [0.0 ** (-1)] is an infinity. *)
Lemma np_pow_m1_zero (x : float) :
  PrimFloat.eqb x 0 = true -> exists s, Prim2SF (np_pow_m1 x) = S754_infinity s.
Proof.
  intros E. destruct (float_zero_spec x E) as (s & Hs).
  unfold np_pow_m1. cbn [s_div s_one Scalar_float].
  rewrite div_spec, Hs.
  change (Prim2SF 1) with (S754_finite false 4503599627370496 (-52)).
  cbn. eauto.
Qed.

(** An infinity times anything, negated, is an infinity or NaN. *)
Lemma neg_inf_mul_non_finite (k y : float) (s : bool) :
  Prim2SF k = S754_infinity s -> non_finite (- (k * y)) = true.
Proof.
  intros Hk. unfold non_finite. rewrite opp_spec, mul_spec, Hk.
  destruct (Prim2SF y) as [sy|sy| |sy my ey]; reflexivity.
Qed.

(** C3 as stated fails: with a zero bottom-right entry in [P] nothing is
    raised, and the returned [D0] holds infinities and a NaN. *)
Lemma zero_P22_returns_inf_nan :
  solve_for_opt_policy script_globals (const_solver P_zero_corner F_sample 0%float)
                       script_params 0%float 0%float 0%float
  = Ok (P_zero_corner, F_sample, [neg_infinity; nan; infinity; neg_infinity]).
Proof. vm_compute. reflexivity. Qed.

(** C3, as amended: when the bottom-right entry of the solver's [P] is
    zero (of either sign), [P22 ** (-1)] is an infinity, no exception is
    raised, and [solve_for_opt_policy] returns [(P, F, D0)] where each of
    the four entries of [D0] is an infinity or NaN. *)
Theorem zero_P22_gives_non_finite_D0
        (G : Globals.t float) (stationary_values : lq_solver) (params : vec float)
        (A B Q R Ptop : mat float)
        (p0 p1 p2 p3 p22 f0 f1 f2 f3 f4 d eta0 Q0 q0 : float) :
  let P := Ptop ++ [[p0; p1; p2; p3; p22]] in
  let F := [[f0; f1; f2; f3; f4]] in
  setup_matrices G params = Ok (A, B, Q, R) ->
  stationary_values Q (mneg R) A B (Globals.beta G) = Ok (P, F, d) ->
  has_shape 4 5 Ptop ->
  PrimFloat.eqb p22 0 = true ->
  last_last P = Ok p22 /\
  non_finite (np_pow_m1 p22) = true /\
  exists D0,
    solve_for_opt_policy G stationary_values params eta0 Q0 q0 = Ok (P, F, D0) /\
    length D0 = 4 /\ forallb non_finite D0 = true.
Proof.
  intros P F HS HL HP Hz.
  destruct (np_pow_m1_zero p22 Hz) as (s & Hinf).
  split. { unfold P, last_last. rewrite last_row_app. reflexivity. }
  split. { unfold non_finite. now rewrite Hinf. }
  eexists. split.
  { apply (solve_for_opt_policy_returns G stationary_values params A B Q R Ptop
             p0 p1 p2 p3 p22 f0 f1 f2 f3 f4 d eta0 Q0 q0 HS HL HP). }
  split; [reflexivity|].
  cbn [vneg vscale map forallb s_opp s_mul Scalar_float].
  rewrite !(neg_inf_mul_non_finite _ _ s Hinf). reflexivity.
Qed.

Lemma zero_P22_gives_non_finite_D0_witness :
  last_last P_zero_corner = Ok 0%float /\
  non_finite (np_pow_m1 0%float) = true /\
  exists D0,
    solve_for_opt_policy script_globals (const_solver P_zero_corner F_sample 0%float)
                         script_params 0%float 0%float 0%float
    = Ok (P_zero_corner, F_sample, D0) /\
    length D0 = 4 /\ forallb non_finite D0 = true.
Proof.
  apply (zero_P22_gives_non_finite_D0 script_globals
           (const_solver P_zero_corner F_sample 0%float) script_params
           script_A script_B script_Q script_R
           [ [1; 0; 0; 0; 1]; [0; 1; 0; 0; 0]; [0; 0; 1; 0; -2]; [0; 0; 0; 1; 3] ]%float
           1 0 (-2) 3 0 1 2 3 4 5 0 0 0 0)%float.
  - exact setup_matrices_script.
  - reflexivity.
  - split; [reflexivity | repeat constructor].
  - reflexivity.
Defined.

Lemma rearranging_does_not_change_result_witness :
  solve_for_opt_policy_without_rearranging
    script_globals (const_solver P_sample F_sample 0%float)
    script_params 0%float 0%float 0%float
  = Ok (P_sample, F_sample, [-0.25; -0; 0.5; -0.75]%float).
Proof.
  apply (rearranging_does_not_change_result script_globals
           (const_solver P_sample F_sample 0%float) script_params
           0%float 0%float 0%float).
  vm_compute. reflexivity.
Defined.

(** C9: [setup_matrices] never reads [params].  Called with an array that
    says a0 = 50 while the module says a0 = 100, it returns the matrices
    for a0 = 100 (entry (0,2) of [R] is 40, not (50 - 20)/2 = 15); and the
    same [params] gives another result once the module-level [a0] is
    rebound. *)
Theorem setup_matrices_reads_module_globals :
  (forall (T : Type) (S : Scalar T) (G : Globals.t T) (p1 p2 : vec T),
      setup_matrices G p1 = setup_matrices G p2) /\
  setup_matrices script_globals other_params
    = Ok (script_A, script_B, script_Q, script_R) /\
  entry script_R 0 2 = 40%float /\
  s_div (s_sub 50%float 20%float) two = 15%float /\
  setup_matrices rebound_globals script_params
    <> setup_matrices script_globals script_params.
Proof.
  split; [intros; apply setup_matrices_ignores_params|].
  split; [vm_compute; reflexivity|].
  split; [reflexivity|]. split; [reflexivity|].
  intros E.
  apply (f_equal (fun r => match r with
                           | Ok (_, _, _, R) => PrimFloat.eqb (entry R 0 2) 40
                           | Raise _ => false
                           end)) in E.
  vm_compute in E. discriminate.
Qed.

(** * Further properties of the code *)

(** ** Steps 3 and 4 on every shape of [P] and [F] *)

Section Outcomes.

Context {T : Type} `{Scalar T}.

Lemma last_row_inv (P : mat T) (r : vec T) :
  last_row P = Ok r -> exists Ptop, P = Ptop ++ [r].
Proof.
  unfold last_row. destruct (rev P) as [|r' l] eqn:E; [discriminate|].
  intros [= ->]. exists (rev l).
  rewrite <- (rev_involutive P), E. reflexivity.
Qed.

Lemma last_row_nil : last_row (@nil (list T)) = Raise IndexError.
Proof. reflexivity. Qed.

Lemma broadcast_long (k : nat) (x y : T) (l : vec T) :
  length (x :: y :: l) <> k ->
  broadcast_row k (x :: y :: l) = Raise ValueError.
Proof.
  intros Hl. unfold broadcast_row.
  destruct (Nat.eqb_spec (length (x :: y :: l)) k); [contradiction | reflexivity].
Qed.

Lemma np_dot_raises (a b : mat T) (e : exn) :
  np_dot a b = Raise e -> e = ValueError.
Proof. unfold np_dot. destruct (forallb _ a); [discriminate | now intros [= <-]]. Qed.

Lemma empty_dotmat_rows :
  set_rows_butlast (np_eye 4 5) (np_empty 5 5)
  = Ok (np_eye 4 5 ++ [repeat (@s_zero T _) 5]).
Proof. reflexivity. Qed.

Lemma set_last_row_dotmat (lower : vec T) :
  set_last_row lower (np_eye 4 5 ++ [repeat (@s_zero T _) 5])
  = (r <- broadcast_row 5 lower ;; Ok (np_eye 4 5 ++ [r])).
Proof.
  unfold set_last_row. cbn [np_eye seq map app length Nat.sub Nat.eqb].
  unfold set_row. cbn [nth_error repeat length].
  destruct (broadcast_row 5 lower); reflexivity.
Qed.

(** A last row that is empty, or of a length other than five. *)
Lemma policy_steps_bad_row (Ptop F : mat T) (r : vec T) (eta0 Q0 q0 : T) :
  length r <> 5 ->
  policy_steps (Ptop ++ [r]) F eta0 Q0 q0
  = Raise (if Nat.eqb (length r) 0 then IndexError else ValueError).
Proof.
  intros Hr. unfold policy_steps, last_last, last_butlast.
  rewrite last_row_app. cbn [bind].
  destruct r as [|r0 rs]; [reflexivity|].
  destruct (exists_last (l := r0 :: rs)) as (r' & x & E); [discriminate|].
  rewrite E in *. clear E r0 rs.
  rewrite rev_app_distr, removelast_last. cbn [rev app bind].
  rewrite length_app in Hr. cbn [length] in Hr.
  replace (Nat.eqb (length (r' ++ [x])) 0) with false
    by (rewrite length_app; cbn [length]; symmetry; apply Nat.eqb_neq; lia).
  rewrite empty_dotmat_rows. cbn [bind].
  rewrite set_last_row_dotmat.
  destruct r' as [|y r''].
  - cbn [np_hstack vscale map app broadcast_row length Nat.eqb repeat bind].
    destruct (np_dot _ _) as [cf|e] eqn:E; cbn [bind].
    + reflexivity.
    + now rewrite (np_dot_raises _ _ _ E).
  - unfold np_hstack, vscale. cbn [map app].
    destruct (map (s_mul (s_opp (np_pow_m1 x))) r'' ++ [np_pow_m1 x]) as [|z l] eqn:E.
    { destruct r''; discriminate E. }
    rewrite broadcast_long; [reflexivity|].
    apply (f_equal (@length T)) in E. rewrite length_app, length_map in E.
    cbn [length] in *. lia.
Qed.

Lemma forallb_length_mneg (k : nat) (F : mat T) :
  forallb (fun r => Nat.eqb (length r) k) (mneg F)
  = forallb (fun r => Nat.eqb (length r) k) F.
Proof.
  induction F as [|r F IH]; [reflexivity|].
  change (mneg (r :: F)) with (vneg r :: mneg F). cbn [forallb].
  unfold vneg at 1. now rewrite length_map, IH.
Qed.

(** A well-shaped [P] with an [F] whose rows are not all five long. *)
Lemma policy_steps_bad_F (Ptop F : mat T) (p0 p1 p2 p3 p22 eta0 Q0 q0 : T) :
  forallb (fun r => Nat.eqb (length r) 5) F = false ->
  policy_steps (Ptop ++ [[p0; p1; p2; p3; p22]]) F eta0 Q0 q0 = Raise ValueError.
Proof.
  intros HF. unfold policy_steps, last_last, last_butlast.
  rewrite last_row_app. cbn [bind rev app removelast].
  rewrite empty_dotmat_rows. cbn [bind].
  rewrite set_last_row_dotmat.
  cbn [np_hstack vscale map app broadcast_row length Nat.eqb bind].
  unfold np_dot. cbn [length np_eye seq map app].
  now rewrite forallb_length_mneg, HF.
Qed.

Lemma length_4_inv {A : Type} (l : list A) :
  length l = 4 -> exists a b c d, l = [a; b; c; d].
Proof.
  intros Hl. do 4 (destruct l as [|? l]; [discriminate Hl|]).
  destruct l; [|discriminate Hl]. repeat eexists.
Qed.

(** Steps 3 and 4 return exactly on a [P] whose last row has five entries
    and an [F] whose rows all have five. *)
Lemma policy_steps_ok_inv (P F : mat T) (eta0 Q0 q0 : T) (fr : policy_frame) :
  policy_steps P F eta0 Q0 q0 = Ok fr ->
  exists Ptop p0 p1 p2 p3 p22,
    P = Ptop ++ [[p0; p1; p2; p3; p22]] /\
    Forall (fun r => length r = 5) F.
Proof.
  intros E.
  destruct (last_row P) as [r|e] eqn:Er.
  2:{ unfold policy_steps, last_last in E. rewrite Er in E. discriminate E. }
  apply last_row_inv in Er as (Ptop & ->).
  destruct (Nat.eq_dec (length r) 5) as [Hr|Hr].
  2:{ rewrite policy_steps_bad_row in E by assumption. discriminate E. }
  destruct (length_5_inv r Hr) as (p0 & p1 & p2 & p3 & p22 & ->).
  exists Ptop, p0, p1, p2, p3, p22. split; [reflexivity|].
  destruct (forallb (fun r => Nat.eqb (length r) 5) F) eqn:HF.
  - now apply forallb_length_inv.
  - rewrite policy_steps_bad_F in E by assumption. discriminate E.
Qed.



(** The part of the frame that the rest of the function reads does not
    depend on the initial conditions. *)
Lemma policy_steps_initial_values {X : Type} (P F : mat T)
      (eta0 Q0 q0 eta0' Q0' q0' : T) (k : mat T -> mat T -> vec T -> result X) :
  (fr <- policy_steps P F eta0 Q0 q0 ;; k (fr_dotmat fr) (fr_coeffs fr) (fr_D0 fr))
  = (fr <- policy_steps P F eta0' Q0' q0' ;; k (fr_dotmat fr) (fr_coeffs fr) (fr_D0 fr)).
Proof.
  destruct (last_row P) as [r|e] eqn:Er.
  2:{ unfold policy_steps, last_last. rewrite Er. reflexivity. }
  apply last_row_inv in Er as (Ptop & ->).
  destruct (Nat.eq_dec (length r) 5) as [Hr|Hr].
  2:{ now rewrite !policy_steps_bad_row by assumption. }
  destruct (length_5_inv r Hr) as (p0 & p1 & p2 & p3 & p22 & ->).
  destruct (forallb (fun f => Nat.eqb (length f) 5) F) eqn:HF.
  - rewrite !policy_steps_eq by (now apply forallb_length_inv). reflexivity.
  - now rewrite !policy_steps_bad_F by assumption.
Qed.

(** X2: the value (or exception) of [solve_for_opt_policy] depends on
    neither its [params] argument, nor its [eta0], [Q0], [q0] arguments, nor
    the module-level [c_eps]. *)
Theorem solve_for_opt_policy_unused_inputs
        (G : Globals.t T) (stationary_values : lq_solver)
        (params params' : vec T) (eta0 Q0 q0 eta0' Q0' q0' c_eps' : T) :
  solve_for_opt_policy (with_c_eps c_eps' G) stationary_values params' eta0' Q0' q0'
  = solve_for_opt_policy G stationary_values params eta0 Q0 q0.
Proof.
  unfold solve_for_opt_policy.
  change (setup_matrices (with_c_eps c_eps' G) params') with (setup_matrices G params).
  change (Globals.beta (with_c_eps c_eps' G)) with (Globals.beta G).
  destruct (setup_matrices G params) as [[[[A B] Q] R]|e]; [|reflexivity].
  cbn [bind].
  destruct (find_PFd stationary_values A B Q R (Globals.beta G)) as [[[P F] d]|e];
    [|reflexivity].
  cbn [bind].
  apply (policy_steps_initial_values P F eta0' Q0' q0' eta0 Q0 q0
           (fun dotmat coeffs D0 => _ <- rearranging P F A B dotmat coeffs ;; Ok (P, F, D0))).
Qed.

Lemma rearranging_one_row (Ptop F A B dotmat coeffs : mat T) (row : vec T)
      (out : T * vec T * vec T) :
  length row = 5 -> has_shape 5 1 B ->
  rearranging (Ptop ++ [row]) F A B dotmat coeffs = Ok out -> length F = 1.
Proof.
  intros Hrow [HBl HBf] E. unfold rearranging in E.
  rewrite last_row_app in E. cbn [bind] in E.
  unfold np_vstack in E.
  rewrite forallb_length_eq in E.
  2:{ rewrite Hrow. apply (np_eye_shape 4 5). }
  cbn [bind] in E.
  unfold np_dot at 1 in E.
  destruct (forallb (fun r => Nat.eqb (length r) (length F)) B) eqn:HF;
    [|discriminate E].
  apply forallb_length_inv in HF.
  destruct B as [|b B']; [discriminate HBl|].
  inversion HF; inversion HBf; congruence.
Qed.

Lemma rearranging_many_rows (Ptop F A B dotmat coeffs : mat T) (row : vec T) :
  length row = 5 -> has_shape 5 1 B -> length F <> 1 ->
  rearranging (Ptop ++ [row]) F A B dotmat coeffs = Raise ValueError.
Proof.
  intros Hrow [HBl HBf] HF. unfold rearranging.
  rewrite last_row_app. cbn [bind].
  unfold np_vstack.
  rewrite forallb_length_eq.
  2:{ rewrite Hrow. apply (np_eye_shape 4 5). }
  cbn [bind]. unfold np_dot at 1.
  destruct B as [|b B']; [discriminate HBl|].
  inversion HBf as [|? ? Hb _]; subst. cbn [forallb]. rewrite Hb.
  replace (Nat.eqb 1 (length F)) with false; [reflexivity|].
  symmetry. apply Nat.eqb_neq. congruence.
Qed.


(** X4: for a solver answer whose [F] has five columns but not exactly one
    row, the function raises [ValueError] at line 144, although the function
    without lines 139-156 returns [(P, F, D0)]. *)
Theorem rearranging_needs_one_row_F
        (G : Globals.t T) (stationary_values : lq_solver) (params : vec T)
        (A B Q R Ptop F : mat T) (p0 p1 p2 p3 p22 d eta0 Q0 q0 : T) :
  let P := Ptop ++ [[p0; p1; p2; p3; p22]] in
  setup_matrices G params = Ok (A, B, Q, R) ->
  stationary_values Q (mneg R) A B (Globals.beta G) = Ok (P, F, d) ->
  Forall (fun f => length f = 5) F -> length F <> 1 ->
  solve_for_opt_policy G stationary_values params eta0 Q0 q0 = Raise ValueError /\
  solve_for_opt_policy_without_rearranging G stationary_values params eta0 Q0 q0
  = Ok (P, F, vneg (vscale (np_pow_m1 p22) [p0; p1; p2; p3])).
Proof.
  intros P HS HL HF HF1.
  unfold solve_for_opt_policy, solve_for_opt_policy_without_rearranging.
  rewrite HS. cbn [bind]. rewrite (find_PFd_ok _ _ _ _ _ _ _ _ _ HL). cbn [bind].
  unfold P. rewrite policy_steps_eq by assumption.
  cbn [bind fr_dotmat fr_coeffs fr_D0].
  destruct (setup_matrices_shapes _ _ _ _ _ _ HS) as (_ & SB & _ & _).
  rewrite rearranging_many_rows by (reflexivity || assumption).
  split; reflexivity.
Qed.

(** X5: whatever [setup_matrices] returns is a 5x5 [A], a 5x1 [B], a 1x1
    [Q] and a 5x5 [R], in every arithmetic. *)
Theorem setup_matrices_result_shapes
        (G : Globals.t T) (params : vec T) (A B Q R : mat T) :
  setup_matrices G params = Ok (A, B, Q, R) ->
  has_shape 5 5 A /\ has_shape 5 1 B /\ has_shape 1 1 Q /\ has_shape 5 5 R.
Proof. apply setup_matrices_shapes. Qed.


Lemma solve_for_opt_policy_returns_rows
      (G : Globals.t T) (stationary_values : lq_solver) (params : vec T)
      (A B Q R P F : mat T) (d eta0 Q0 q0 : T) (n : nat) :
  setup_matrices G params = Ok (A, B, Q, R) ->
  stationary_values Q (mneg R) A B (Globals.beta G) = Ok (P, F, d) ->
  has_shape (S n) 5 P -> has_shape 1 5 F ->
  exists D0, solve_for_opt_policy G stationary_values params eta0 Q0 q0 = Ok (P, F, D0).
Proof.
  intros HS HL HP HF. unfold solve_for_opt_policy.
  rewrite HS. cbn [bind]. rewrite (find_PFd_ok _ _ _ _ _ _ _ _ _ HL). cbn [bind].
  destruct (last_row_shape HP) as (Ptop & r & E & _ & Hr).
  destruct (length_5_inv r Hr) as (p0 & p1 & p2 & p3 & p22 & ->).
  assert (Hps : policy_steps P F eta0 Q0 q0
                = Ok (frame_of [p0; p1; p2; p3; p22] F eta0 Q0 q0)).
  { rewrite E. apply policy_steps_eq. apply HF. }
  rewrite Hps. cbn [bind frame_of fr_dotmat fr_coeffs fr_D0 nth removelast].
  apply setup_matrices_shapes in HS as (SA & SB & _ & _).
  pose proof (dotmat_shape [p0; p1; p2; p3] (np_pow_m1 p22) eq_refl) as Sd.
  destruct (np_dot_shape (mneg_shape HF) Sd) as (cf & Hcf & Scf).
  apply np_dot_ok_inv in Hcf as (_ & ->).
  destruct (rearranging_ok (n := n) (P := P) (F := F) (A := A) (B := B)
              (dotmat := dotmat_of [p0; p1; p2; p3] (np_pow_m1 p22))
              (coeffs := map (fun r => map (dotprod r)
                 (transpose (dotmat_of [p0; p1; p2; p3] (np_pow_m1 p22)))) (mneg F)))
    as (out & ->); try assumption.
  eexists. reflexivity.
Qed.

(** X7: when the builder returned and the solver answered with an n-by-k
    [P] and an m-by-j [F], [solve_for_opt_policy] returns exactly when [P]
    has a row and five columns and [F] is one row of five; the height of
    [P] is not checked. *)
Theorem solve_for_opt_policy_returns_iff
        (G : Globals.t T) (stationary_values : lq_solver) (params : vec T)
        (A B Q R P F : mat T) (d eta0 Q0 q0 : T) (n k m j : nat) :
  setup_matrices G params = Ok (A, B, Q, R) ->
  stationary_values Q (mneg R) A B (Globals.beta G) = Ok (P, F, d) ->
  has_shape n k P -> has_shape m j F ->
  (exists D0, solve_for_opt_policy G stationary_values params eta0 Q0 q0 = Ok (P, F, D0))
  <-> (1 <= n /\ k = 5 /\ m = 1 /\ j = 5).
Proof.
  intros HS HL [HPl HPf] [HFl HFf]. split.
  - intros [D0 E].
    unfold solve_for_opt_policy in E. rewrite HS in E. cbn [bind] in E.
    rewrite (find_PFd_ok _ _ _ _ _ _ _ _ _ HL) in E. cbn [bind] in E.
    apply bind_ok_inv in E as (fr & Hps & E).
    apply bind_ok_inv in E as (out & Hre & _).
    destruct (policy_steps_ok_inv _ _ _ _ _ _ Hps)
      as (Ptop & p0 & p1 & p2 & p3 & p22 & -> & HF).
    rewrite policy_steps_eq in Hps by assumption. injection Hps as <-.
    cbn [fr_dotmat fr_coeffs] in Hre.
    destruct (setup_matrices_shapes _ _ _ _ _ _ HS) as (_ & SB & _ & _).
    pose proof (rearranging_one_row Ptop F A B _ _ [p0; p1; p2; p3; p22] out
                  eq_refl SB Hre) as HF1.
    rewrite length_app in HPl. cbn [length] in HPl.
    apply Forall_app in HPf as [_ HPf]. inversion HPf as [|? ? Hk _]; subst.
    destruct F as [|f [|? ?]]; try discriminate HF1.
    inversion HFf as [|? ? Hj _]. inversion HF as [|? ? H5 _]. subst.
    repeat split; lia.
  - intros (Hn & -> & -> & ->).
    destruct n as [|n]; [lia|].
    apply (solve_for_opt_policy_returns_rows G stationary_values params
             A B Q R P F d eta0 Q0 q0 n HS HL); split; assumption.
Qed.

End Outcomes.

(** ** Exact arithmetic *)

(** X8: over the rationals [setup_matrices] returns exactly when [c] and
    [beta] are both non-zero, and what it returns is then the closed
    form. *)
Theorem setup_matrices_returns_iff (G : Globals.t Qc) (params : vec Qc)
        (out : mat Qc * mat Qc * mat Qc * mat Qc) :
  setup_matrices G params = Ok out
  <-> (Globals.c G <> 0%Qc /\ Globals.beta G <> 0%Qc /\
       out = (A_of G, B_of G, Q_of G, R_of G)).
Proof.
  rewrite setup_matrices_cases.
  destruct (s_is_zero (Globals.c G)) eqn:Ec.
  { apply is_zero_Qc in Ec. split; [discriminate | intros (Hc & _); contradiction]. }
  apply is_zero_Qc_false in Ec.
  destruct (s_is_zero (Globals.beta G)) eqn:Eb.
  { apply is_zero_Qc in Eb. split; [discriminate | intros (_ & Hb & _); contradiction]. }
  apply is_zero_Qc_false in Eb. split.
  - intros E. injection E as <-. repeat split; assumption.
  - intros (_ & _ & ->). reflexivity.
Qed.

(** X9: [part1] of line 143 and [dotmat] of lines 125-130 are inverse to
    each other when [P22 <> 0], so that [m] of line 146 is [A - B.F] in
    another basis. *)
Theorem part1_inverts_dotmat
        (Ptop F : mat Qc) (p0 p1 p2 p3 p22 eta0 Q0 q0 : Qc) :
  Forall (fun f => length f = 5) F -> p22 <> 0%Qc ->
  let P := Ptop ++ [[p0; p1; p2; p3; p22]] in
  exists fr part1,
    policy_steps P F eta0 Q0 q0 = Ok fr /\
    (Plast <- last_row P ;; np_vstack (np_eye 4 5) Plast) = Ok part1 /\
    np_dot part1 (fr_dotmat fr) = Ok (np_eye 5 5) /\
    np_dot (fr_dotmat fr) part1 = Ok (np_eye 5 5).
Proof.
  intros HF Hp P. unfold P.
  eexists. eexists. split; [apply policy_steps_eq; assumption|].
  rewrite last_row_app. cbn [bind fr_dotmat].
  split; [reflexivity|].
  split.
  - cbv [np_dot dotmat_of lower_of np_hstack vscale app np_eye seq Nat.eqb map forallb
         andb transpose ncols col length nth dotprod combine fold_left fst snd np_pow_m1].
    qc_ops. list_eq; field; assumption.
  - cbv [np_dot dotmat_of lower_of np_hstack vscale app np_eye seq Nat.eqb map forallb
         andb transpose ncols col length nth dotprod combine fold_left fst snd np_pow_m1].
    qc_ops. list_eq; field; assumption.
Qed.

(** X10: over the rationals, for [P22 <> 0], the returned [D0] is the row
    that gives [x0] from [z0], and the last row of [P] vanishes on
    [(z0, x0)]: [P21 . z0 + P22 * x0 = 0]. *)
Theorem x0_solves_last_row
        (Ptop F : mat Qc) (p0 p1 p2 p3 p22 eta0 Q0 q0 : Qc) (fr : policy_frame) :
  p22 <> 0%Qc ->
  policy_steps (Ptop ++ [[p0; p1; p2; p3; p22]]) F eta0 Q0 q0 = Ok fr ->
  vdot (fr_D0 fr) (fr_z0 fr) = Ok (fr_x0 fr) /\
  vdot [p0; p1; p2; p3; p22] (fr_z0 fr ++ [fr_x0 fr]) = Ok 0%Qc.
Proof.
  intros Hp E.
  destruct (policy_steps_ok_inv _ _ _ _ _ _ E) as (_ & _ & _ & _ & _ & _ & _ & HF).
  rewrite policy_steps_eq in E by assumption. injection E as <-.
  cbn [fr_D0 fr_z0 fr_x0]. unfold vdot.
  cbv [vneg vscale map app length Nat.eqb negb dotprod combine fold_left fst snd np_pow_m1].
  qc_ops. split; f_equal; field; assumption.
Qed.

(** ** Binary64 *)

Lemma float_mul_opp_l (a b : float) : (- a * b = - (a * b))%float.
Proof.
  apply Prim2SF_inj. rewrite mul_spec, !opp_spec, mul_spec.
  unfold SF64mul.
  destruct (Prim2SF a) as [sa|sa| |sa ma ea], (Prim2SF b) as [sb|sb| |sb mb eb];
    cbn [SFopp SFmul]; try reflexivity;
    try (destruct sa, sb; reflexivity).
  unfold binary_round_aux.
  destruct (shr_fexp _ _ _ _ _) as [mrs' e'].
  destruct (shr_fexp _ _ _ _ _) as [mrs'' e''].
  destruct (shr_m mrs'') as [|q|q].
  - destruct sa, sb; reflexivity.
  - destruct (Z.leb _ _); destruct sa, sb; reflexivity.
  - reflexivity.
Qed.

(** X11: in binary64 the first four entries of the last row of [dotmat]
    (computed as [(-P22inv) * P21]) are the returned [D0] (computed as
    [-(P22inv * P21)]), also when they are infinite or NaN. *)
Theorem dotmat_last_row_is_D0 (P F : mat float) (eta0 Q0 q0 : float)
        (fr : policy_frame) :
  policy_steps P F eta0 Q0 q0 = Ok fr ->
  last_butlast (fr_dotmat fr) = Ok (fr_D0 fr).
Proof.
  intros E.
  destruct (policy_steps_ok_inv _ _ _ _ _ _ E)
    as (Ptop & p0 & p1 & p2 & p3 & p22 & -> & HF).
  rewrite policy_steps_eq in E by assumption. injection E as <-.
  cbn [fr_dotmat fr_D0]. unfold last_butlast, dotmat_of.
  rewrite last_row_app. cbn [bind].
  cbv [lower_of np_hstack vscale vneg map app removelast].
  cbv [s_mul s_opp Scalar_float].
  now rewrite !float_mul_opp_l.
Qed.

(** ** The properties above on sample values *)

Lemma setup_matrices_result_shapes_witness :
  has_shape 5 5 script_A /\ has_shape 5 1 script_B /\
  has_shape 1 1 script_Q /\ has_shape 5 5 script_R.
Proof.
  apply (setup_matrices_result_shapes script_globals script_params).
  vm_compute. reflexivity.
Defined.


Lemma solve_for_opt_policy_returns_iff_witness :
  (exists D0,
      solve_for_opt_policy script_globals (const_solver P_sample F_sample 0%float)
                           script_params 0%float 0%float 0%float
      = Ok (P_sample, F_sample, D0))
  <-> (1 <= 5 /\ 5 = 5 /\ 1 = 1 /\ 5 = 5).
Proof.
  apply (solve_for_opt_policy_returns_iff script_globals
           (const_solver P_sample F_sample 0%float) script_params
           script_A script_B script_Q script_R P_sample F_sample
           0%float 0%float 0%float 0%float).
  - vm_compute. reflexivity.
  - reflexivity.
  - split; [reflexivity | repeat constructor].
  - split; [reflexivity | repeat constructor].
Defined.

Lemma rearranging_needs_one_row_F_witness :
  solve_for_opt_policy script_globals (const_solver P_sample F_two_rows 0%float)
                       script_params 0%float 0%float 0%float
  = Raise ValueError /\
  solve_for_opt_policy_without_rearranging
    script_globals (const_solver P_sample F_two_rows 0%float)
    script_params 0%float 0%float 0%float
  = Ok (P_sample, F_two_rows,
        vneg (vscale (np_pow_m1 4%float) [1; 0; -2; 3]%float)).
Proof.
  apply (rearranging_needs_one_row_F script_globals
           (const_solver P_sample F_two_rows 0%float) script_params
           script_A script_B script_Q script_R
           [ [1; 0; 0; 0; 1]; [0; 1; 0; 0; 0]; [0; 0; 1; 0; -2]; [0; 0; 0; 1; 3] ]%float
           F_two_rows 1%float 0%float (-2)%float 3%float 4%float 0%float
           0%float 0%float 0%float).
  - vm_compute. reflexivity.
  - reflexivity.
  - repeat constructor.
  - simpl. lia.
Defined.

Lemma part1_inverts_dotmat_witness :
  exists fr part1,
    policy_steps P_sample_Qc F_sample_Qc 0%Qc 0%Qc 0%Qc = Ok fr /\
    (Plast <- last_row P_sample_Qc ;; np_vstack (np_eye 4 5) Plast) = Ok part1 /\
    np_dot part1 (fr_dotmat fr) = Ok (np_eye 5 5) /\
    np_dot (fr_dotmat fr) part1 = Ok (np_eye 5 5).
Proof.
  apply (part1_inverts_dotmat P_top_Qc F_sample_Qc
           (qc 1 1) (qc 0 1) (qc (-2) 1) (qc 3 1) (qc 4 1) 0%Qc 0%Qc 0%Qc).
  - repeat constructor.
  - discriminate.
Defined.

Lemma x0_solves_last_row_witness :
  let fr := frame_of [qc 1 1; qc 0 1; qc (-2) 1; qc 3 1; qc 4 1] F_sample_Qc
                     0%Qc (qc 2 1) (qc 1 1) in
  vdot (fr_D0 fr) (fr_z0 fr) = Ok (fr_x0 fr) /\
  vdot [qc 1 1; qc 0 1; qc (-2) 1; qc 3 1; qc 4 1] (fr_z0 fr ++ [fr_x0 fr]) = Ok 0%Qc.
Proof.
  apply (x0_solves_last_row P_top_Qc F_sample_Qc
           (qc 1 1) (qc 0 1) (qc (-2) 1) (qc 3 1) (qc 4 1) 0%Qc (qc 2 1) (qc 1 1)).
  - discriminate.
  - reflexivity.
Defined.

Lemma dotmat_last_row_is_D0_witness :
  let fr := frame_of [1; 0; -2; 3; 0]%float F_sample 0%float 0%float 0%float in
  last_butlast (fr_dotmat fr) = Ok (fr_D0 fr) /\
  fr_D0 fr = [neg_infinity; nan; infinity; neg_infinity].
Proof.
  split; [|vm_compute; reflexivity].
  apply (dotmat_last_row_is_D0 P_zero_corner F_sample 0%float 0%float 0%float).
  vm_compute. reflexivity.
Defined.
